(** * rag_processor: subtitle clean-up, terminology rules and the per-file job

    A shallow embedding of [rag_processor.py].  Python [str] values are
    modelled as lists of characters ([list ascii]); a character stands for
    a code point below 256, so that [isspace], [isdigit] and [lower] are
    Python's predicates restricted to that range.  Effects (file system,
    logger, the Gemini client, [time.sleep]) are threaded explicitly
    through a [world] record that also keeps the trace of what happened. *)

From Stdlib Require Import Ascii String List Arith Lia Bool.
From stdpp Require Import base list gmap strings.

Local Open Scope list_scope.
Local Open Scope nat_scope.

Abbreviation str := (list ascii).

(** Python literals: [py "abc"] is the [str] with these characters. *)
Definition py (s : string) : str := list_ascii_of_string s.

Definition NL : ascii := "010"%char.
Definition CR : ascii := "013"%char.
Definition SP : ascii := " "%char.

(** ** Python string primitives *)

Module PyStr.

(** [str.isspace] of one character (code points below 256). *)
Definition isspace (c : ascii) : bool :=
  let n := nat_of_ascii c in
  ((9 <=? n) && (n <=? 13)) || ((28 <=? n) && (n <=? 32))
  || (n =? 133) || (n =? 160).

(** [\d] of the [re] module on [str] patterns (code points below 256). *)
Definition isdigit (c : ascii) : bool :=
  let n := nat_of_ascii c in (48 <=? n) && (n <=? 57).

(** [str.lower] of one character (code points below 256). *)
Definition lower_char (c : ascii) : ascii :=
  let n := nat_of_ascii c in
  if ((65 <=? n) && (n <=? 90))
     || ((192 <=? n) && (n <=? 222) && negb (n =? 215))
  then ascii_of_nat (n + 32) else c.

Definition lower (s : str) : str := map lower_char s.

(** Truth value of a Python sequence: non-empty. *)
Definition truthy {A} (l : list A) : bool :=
  match l with [] => false | _ :: _ => true end.

Fixpoint lstrip (s : str) : str :=
  match s with
  | [] => []
  | c :: t => if isspace c then lstrip t else s
  end.

Definition rstrip (s : str) : str := rev (lstrip (rev s)).

Definition strip (s : str) : str := lstrip (rstrip s).

Fixpoint startswith (s p : str) {struct p} : bool :=
  match p, s with
  | [], _ => true
  | _ :: _, [] => false
  | a :: p', b :: s' => Ascii.eqb a b && startswith s' p'
  end.

Definition endswith (s p : str) : bool := startswith (rev s) (rev p).

(** [needle in s]. *)
Fixpoint contains (s needle : str) : bool :=
  startswith s needle ||
  match s with
  | [] => false
  | _ :: t => contains t needle
  end.

(** [s.split(sep)] for a one-character separator. *)
Fixpoint split (sep : ascii) (s : str) : list str :=
  match s with
  | [] => [[]]
  | c :: t =>
      if Ascii.eqb c sep then [] :: split sep t
      else match split sep t with
           | [] => [[c]]
           | w :: ws => (c :: w) :: ws
           end
  end.

(** [sep.join(parts)]. *)
Fixpoint join (sep : str) (parts : list str) : str :=
  match parts with
  | [] => []
  | [p] => p
  | p :: ps => p ++ sep ++ join sep ps
  end.

(** Left-to-right scan of [str.replace] for a non-empty [old]; [skip]
    counts the characters of the occurrence just replaced that are still
    to be passed over. *)
Fixpoint replace_from (old new s : str) (skip : nat) : str :=
  match s with
  | [] => []
  | c :: t =>
      match skip with
      | S k => replace_from old new t k
      | O => if startswith s old
             then new ++ replace_from old new t (length old - 1)
             else c :: replace_from old new t 0
      end
  end.

(** [s.replace(old, new)]; an empty [old] matches between all characters
    and at both ends. *)
Definition replace (s old new : str) : str :=
  match old with
  | [] => new ++ flat_map (fun c => c :: new) s
  | _ :: _ => replace_from old new s 0
  end.

(** Equality of two lists of strings, as Python's [==] on lists. *)
Definition lines_eqb (a b : list str) : bool := bool_decide (a = b).

Definition str_eqb (a b : str) : bool := bool_decide (a = b).

End PyStr.

Import PyStr.

(** ** Subtitle parsing and rollup deduplication: [clean_srt_content] *)

Module Srt.

(** One timestamp [\d{2}:\d{2}:\d{2},\d{3}]: the input after it. *)
Definition match_timestamp (s : str) : option str :=
  match s with
  | h1 :: h2 :: c1 :: m1 :: m2 :: c2 :: s1 :: s2 :: k :: f1 :: f2 :: f3 :: r =>
      if isdigit h1 && isdigit h2 && Ascii.eqb c1 ":"
         && isdigit m1 && isdigit m2 && Ascii.eqb c2 ":"
         && isdigit s1 && isdigit s2 && Ascii.eqb k ","
         && isdigit f1 && isdigit f2 && isdigit f3
      then Some r else None
  | _ => None
  end.

(** A literal: the input after it. *)
Definition match_lit (lit s : str) : option str :=
  if startswith s lit then Some (drop (length lit) s) else None.

(** [(\d+)]: greedy; giving digits back never helps, since a newline
    has to follow. *)
Fixpoint skip_digits (s : str) : str :=
  match s with
  | c :: t => if isdigit c then skip_digits t else s
  | [] => []
  end.

(** The header of a cue: number line and timing line. *)
Definition match_header (s : str) : option str :=
  match s with
  | c :: _ =>
      if isdigit c then
        r1 ← match_lit [NL] (skip_digits s);
        r2 ← match_timestamp r1;
        r3 ← match_lit (py " --> ") r2;
        r4 ← match_timestamp r3;
        match_lit [NL] r4
      else None
  | [] => None
  end.

(** The lookahead [(?=\n\n|$)]; without MULTILINE, [$] holds at the end
    of the input and just before a newline that ends the input. *)
Definition at_block_end (s : str) : bool :=
  match s with
  | [] => true
  | [c] => Ascii.eqb c NL
  | c :: d :: _ => Ascii.eqb c NL && Ascii.eqb d NL
  end.

(** Group 4, [((?:(?!\n\n).)*?)], lazy, with DOTALL: the shortest text
    after which the lookahead holds. *)
Fixpoint match_text (s : str) : str :=
  match s with
  | [] => []
  | c :: t => if at_block_end s then [] else c :: match_text t
  end.

(** A match of the whole pattern at the start of [s]: group 4 and the
    length of the match. *)
Definition match_here (s : str) : option (str * nat) :=
  match match_header s with
  | Some body =>
      let g := match_text body in
      Some (g, length s - length body + length g)
  | None => None
  end.

(** [pattern.finditer]: leftmost matches, not overlapping; [skip] counts
    the characters of the last match still to be passed over. *)
Fixpoint finditer (s : str) (skip : nat) : list str :=
  match s with
  | [] => []
  | _ :: t =>
      match skip with
      | S k => finditer t k
      | O => match match_here s with
             | Some (g, n) => g :: finditer t (n - 1)
             | None => finditer t 0
             end
      end
  end.

(** [re.sub(r'<[^>]*>', '', text)]: a [<] opens a tag when a [>] follows
    somewhere; the tag ends at the first [>]. *)
Fixpoint remove_tags (s : str) (inside : bool) : str :=
  match s with
  | [] => []
  | c :: t =>
      if inside then remove_tags t (negb (Ascii.eqb c ">"))
      else if Ascii.eqb c "<" && existsb (Ascii.eqb ">") t
           then remove_tags t true
           else c :: remove_tags t false
  end.

(** The first loop: the cleaned, non-empty text of every cue. *)
Definition parse_blocks (content : str) : list str :=
  filter (fun b => truthy b = true)
         (map (fun g => remove_tags (strip g) false) (finditer content 0)).

(** [[l.strip() for l in text.split('\n') if l.strip()]]. *)
Definition nonempty_lines (text : str) : list str :=
  filter (fun l => truthy l = true) (map strip (split NL text)).

(** Start index of the line-by-line strategy (source lines 75-80). *)
Definition start_idx (prev_lines curr_lines : list str) : nat :=
  if truthy prev_lines && truthy curr_lines then
    if bool_decide (head curr_lines = last prev_lines) then 1
    else if (length prev_lines <? length curr_lines)
            && lines_eqb (take (length prev_lines) curr_lines) prev_lines
         then length prev_lines
         else 0
  else 0.

(** Body of the deduplication loop: what one iteration appends to
    [cleaned_lines]. *)
Definition emitted (prev_text curr_text : str) : list str :=
  if startswith curr_text prev_text then
    let new_part := strip (drop (length prev_text) curr_text) in
    if truthy new_part then [new_part] else []
  else
    let prev_lines := nonempty_lines prev_text in
    let curr_lines := nonempty_lines curr_text in
    drop (start_idx prev_lines curr_lines) curr_lines.

(** The loop [for i in range(1, len(blocks))]. *)
Definition dedup_loop (blocks cleaned_lines : list str) : list str :=
  foldl (fun acc i => acc ++ emitted (nth (i - 1) blocks []) (nth i blocks []))
        cleaned_lines (seq 1 (length blocks - 1)).

Definition dedup_lines (blocks : list str) : list str :=
  match blocks with
  | [] => []
  | b0 :: _ => dedup_loop blocks [b0]
  end.

Definition dedup (blocks : list str) : str := join [SP] (dedup_lines blocks).

Definition clean_srt_content (content : str) : str :=
  let content := replace content [CR; NL] [NL] in
  dedup (parse_blocks content).

End Srt.

Import Srt.

(** ** [os.path] on POSIX paths *)

Module Os.

(** [s.rfind(c)]: the last index of [c], [None] for Python's [-1]. *)
Fixpoint rfind (c : ascii) (s : str) : option nat :=
  match s with
  | [] => None
  | x :: t =>
      match rfind c t with
      | Some i => Some (S i)
      | None => if Ascii.eqb x c then Some 0 else None
      end
  end.

(** [os.path.basename]: what follows the last slash. *)
Definition basename (p : str) : str :=
  match rfind "/" p with
  | Some i => drop (S i) p
  | None => p
  end.

(** [os.path.splitext]: split at the last dot of the last component,
    unless only dots precede it there. *)
Definition splitext (p : str) : str * str :=
  let filename_index :=
    match rfind "/" p with Some i => S i | None => 0 end in
  match rfind "." p with
  | Some dot_index =>
      if (filename_index <=? dot_index)
         && negb (forallb (Ascii.eqb ".")
                          (drop filename_index (take dot_index p)))
      then (take dot_index p, drop dot_index p)
      else (p, [])
  | None => (p, [])
  end.

(** [os.path.join(a, b)]. *)
Definition join (a b : str) : str :=
  if startswith b (py "/") then b
  else if negb (truthy a) || endswith a (py "/") then a ++ b
  else a ++ py "/" ++ b.

End Os.

(** ** Outcomes, events and the world *)

(** What a Python call yields: a value, or a raised [Exception] carried
    as its message [str(e)]. *)
Inductive outcome (A : Type) : Type :=
| Ok (a : A)
| Raise (e : str).

Arguments Ok {A} a.
Arguments Raise {A} e.

Inductive level : Type := INFO | WARNING | ERROR.

(** The log lines of the program, by the place that writes them. *)
Inductive message : Type :=
| MsgSkipping (filename : str)
| MsgStarting (filename : str)
| MsgConverting (filename : str)
| MsgEmptyFile (filename : str)
| MsgRateLimit (filename : str) (wait_time attempt max_retries : nat)
| MsgApiError (filename e : str)
| MsgGenerationFailed (filename : str)
| MsgFileError (filename e : str)
| MsgRegexError (original e : str).

(** What can be observed of a run. [EvRead] records an attempt to open a
    file for reading, [EvGenerate] one call of the client, [EvWrite] a
    file written. *)
Inductive event : Type :=
| EvExists (path : str)
| EvRead (path : str)
| EvGenerate (prompt : str)
| EvSleep (seconds : nat)
| EvWrite (path data : str)
| EvLog (lvl : level) (msg : message).

(** A terminology rule, as [load_rules] builds it. *)
Record rule : Type := Rule {
  original : str;
  replacement : str;
  is_regex : bool
}.

(** What the program takes from outside: the Gemini client (with a state
    of its own), [re.sub], the prompt template, the file-name heuristics,
    the clock, and which paths can be opened for writing. *)
Class Externals : Type := {
  client : Type;
  generate_content : client -> str -> outcome (option str) * client;
  re_sub : str -> str -> str -> outcome str;
  get_rag_prompt : str -> str -> str -> str -> str -> str;
  extract_metadata_from_filename : str -> str * str;
  current_date_str : str;
  can_write : str -> bool
}.

Section Pipeline.

Context `{Ext : Externals}.

(** The file system maps a path to what reading it gives. *)
Record world : Type := World {
  fs : gmap str (outcome str);
  gemini : client;
  trace : list event
}.

Definition record (e : event) (w : world) : world :=
  World (fs w) (gemini w) (trace w ++ [e]).

(** Computations: state passing over the world, with exceptions. *)
Definition M (A : Type) : Type := world -> outcome A * world.

Definition ret {A} (a : A) : M A := fun w => (Ok a, w).

Definition bind {A B} (m : M A) (k : A -> M B) : M B :=
  fun w =>
    match m w with
    | (Ok a, w') => k a w'
    | (Raise e, w') => (Raise e, w')
    end.

Definition lift {A} (r : outcome A) : M A := fun w => (r, w).

(** [try: body  except Exception as e: handler]. *)
Definition try_except {A} (body : M A) (handler : str -> M A) : M A :=
  fun w =>
    match body w with
    | (Ok a, w') => (Ok a, w')
    | (Raise e, w') => handler e w'
    end.

Notation "'let*' x ':=' m 'in' k" := (bind m (fun x => k))
  (at level 10, x name, m at level 100, k at level 200, only parsing).
Notation "m >> k" := (bind m (fun _ => k))
  (at level 90, right associativity, only parsing).

Definition log (lvl : level) (msg : message) : M unit :=
  fun w => (Ok tt, record (EvLog lvl msg) w).

Definition sleep (seconds : nat) : M unit :=
  fun w => (Ok tt, record (EvSleep seconds) w).

(** [os.path.exists]. *)
Definition path_exists (path : str) : M bool :=
  fun w => (Ok (bool_decide (is_Some (fs w !! path))),
            record (EvExists path) w).

(** [open(path, 'r', encoding='utf-8')] and [f.read()]. *)
Definition read_file (path : str) : M str :=
  fun w =>
    (match fs w !! path with
     | Some r => r
     | None => Raise (py "No such file or directory")
     end, record (EvRead path) w).

(** [open(path, 'w', encoding='utf-8')] and the writes that follow. *)
Definition write_file (path data : str) : M unit :=
  fun w =>
    if can_write path
    then (Ok tt, World (<[path := Ok data]> (fs w)) (gemini w)
                       (trace w ++ [EvWrite path data]))
    else (Raise (py "Permission denied"), w).

(** [client.models.generate_content(...)] and [response.text]. *)
Definition generate (prompt : str) : M (option str) :=
  fun w =>
    let (r, c) := generate_content (gemini w) prompt in
    (r, World (fs w) c (trace w ++ [EvGenerate prompt])).

(** *** [enforce_terminology] *)

Definition apply_rule (text : str) (r : rule) : M str :=
  if is_regex r then
    try_except (lift (re_sub (original r) (replacement r) text))
               (fun e => log ERROR (MsgRegexError (original r) e) >> ret text)
  else ret (replace text (original r) (replacement r)).

Fixpoint enforce_terminology (text : str) (rules : list rule) : M str :=
  match rules with
  | [] => ret text
  | r :: rest =>
      let* text := apply_rule text r in
      enforce_terminology text rest
  end.

(** *** [process_with_gemini] *)

(** The test of the [except] branch: rate limit or quota. *)
Definition rate_limited (e : str) : bool :=
  contains e (py "429") || contains (lower e) (py "quota").

(** The loop [for attempt in range(max_retries)], over the attempts
    that are left. *)
Fixpoint retry_loop (attempts : list nat) (prompt filename : str)
         (max_retries : nat) : M (option str) :=
  match attempts with
  | [] => ret (Some [])
  | attempt :: rest =>
      try_except (generate prompt)
        (fun e =>
           if rate_limited e then
             let wait_time := (attempt + 1) * 5 in
             log WARNING (MsgRateLimit filename wait_time (attempt + 1) max_retries) >>
             sleep wait_time >>
             retry_loop rest prompt filename max_retries
           else
             log ERROR (MsgApiError filename e) >>
             if attempt =? max_retries - 1 then ret (Some [])
             else sleep 2 >> retry_loop rest prompt filename max_retries)
  end.

Definition process_with_gemini (text filename title current_date event_date : str)
           (max_retries : nat) : M (option str) :=
  let prompt := get_rag_prompt text filename title current_date event_date in
  retry_loop (seq 0 max_retries) prompt filename max_retries.

(** *** [process_file] *)

(** [not optimized_text], for a value that is a [str] or [None]. *)
Definition falsy (t : option str) : bool :=
  match t with
  | Some (_ :: _) => false
  | _ => true
  end.

Definition text_of (t : option str) : str :=
  match t with Some s => s | None => [] end.

Definition separator : str :=
  [NL; NL] ++ py "---" ++ [NL; NL]
  ++ py "## Transcri" ++ ["231"%char; "227"%char] ++ py "o Completa Original"
  ++ [NL; NL].

Definition output_path (file_path output_dir : str) : str :=
  let filename := Os.basename file_path in
  let name := fst (Os.splitext filename) in
  let output_filename := name ++ py "_rag.txt" in
  Os.join output_dir output_filename.

Definition process_file (file_path output_dir : str) (rules : list rule) : M unit :=
  let filename := Os.basename file_path in
  let* done := path_exists (output_path file_path output_dir) in
  if done : bool then log INFO (MsgSkipping filename)
  else
    log INFO (MsgStarting filename) >>
    try_except
      (let* content := read_file file_path in
       let* content :=
         (if endswith (lower filename) (py ".srt")
          then log INFO (MsgConverting filename) >> ret (clean_srt_content content)
          else ret content) in
       if negb (truthy (strip content))
       then log WARNING (MsgEmptyFile filename)
       else
         let meta := extract_metadata_from_filename filename in
         let* optimized_text :=
           process_with_gemini content filename (fst meta)
                               current_date_str (snd meta) 3 in
         if falsy optimized_text
         then log ERROR (MsgGenerationFailed filename)
         else
           let* final_text := enforce_terminology (text_of optimized_text) rules in
           write_file (output_path file_path output_dir)
                      (final_text ++ separator ++ content))
      (fun e => log ERROR (MsgFileError filename e)).

(** *** Discovery and the batch of [main] *)

(** The jobs of one batch, run one after the other in the order of
    [files]; a job never raises, so none is cut short by another. *)
Fixpoint run_jobs (dir output_dir : str) (rules : list rule)
         (files : list str) : M unit :=
  match files with
  | [] => ret tt
  | f :: rest =>
      process_file (Os.join dir f) output_dir rules >>
      run_jobs dir output_dir rules rest
  end.

End Pipeline.

Definition excluded_files : list str :=
  [py "historico.txt"; py "cookies.txt"; py "requirements.txt";
   py "rules.txt"; py "LICENSE"; py "README.md"].

(** The filter of the list comprehension over [os.listdir]. *)
Definition eligible (f : str) : bool :=
  (endswith f (py ".txt") || endswith f (py ".srt"))
  && negb (contains f (py "_rag"))
  && negb (bool_decide (f ∈ excluded_files))
  && negb (startswith f (py ".")).

Definition discover (listing : list str) : list str :=
  filter (fun f => eligible f = true) listing.
(** ** Definitions that follow the words of the specification *)

(** The prefix case in the words of the specification: the remainder of
    [curr] after the [prev] prefix, trimmed; nothing when it is empty. *)
Definition spec_prefix_fragment (prev curr : str) : list str :=
  match strip (drop (length prev) curr) with
  | [] => []
  | c :: r => [c :: r]
  end.

(** The start index in the words of the specification. *)
Definition spec_is_prefix (pl cl : list str) : bool :=
  bool_decide (pl `prefix_of` cl).

Definition spec_start_idx (pl cl : list str) : nat :=
  match last pl, head cl with
  | Some a, Some b =>
      if str_eqb a b then 1
      else if (length pl <? length cl) && spec_is_prefix pl cl
           then length pl else 0
  | _, _ =>
      if (length pl <? length cl) && spec_is_prefix pl cl
      then length pl else 0
  end.

(** What the loop appends after a block [prev] for the blocks [rest]
    that follow it: each block is compared with its predecessor only. *)
Fixpoint chain (prev : str) (rest : list str) : list str :=
  match rest with
  | [] => []
  | curr :: rest' => emitted prev curr ++ chain curr rest'
  end.


(** The cleaned, non-empty cue texts of a subtitle file, in order: all
    that [clean_srt_content] keeps of the cues before deduplicating. *)
Definition cleaned_blocks (content : str) : list str :=
  parse_blocks (replace content [CR; NL] [NL]).

(** Two subtitle files with the same cue texts, numbered and timed
    differently (and with markup in one of them). *)
Definition sample_cue (n t1 t2 : string) (text : str) : str :=
  py n ++ [NL] ++ py t1 ++ py " --> " ++ py t2 ++ [NL] ++ text ++ [NL; NL].

Definition sample_content1 : str :=
  sample_cue "1" "00:00:01,000" "00:00:02,500" (py "Hello")
  ++ sample_cue "2" "00:00:02,500" "00:00:04,000"
                (py "Hello" ++ [NL] ++ py "world").

Definition sample_content2 : str :=
  sample_cue "17" "01:10:00,250" "01:10:03,000" (py "<i>Hello</i>")
  ++ sample_cue "4" "01:10:03,000" "01:10:09,125"
                (py "Hello" ++ [CR; NL] ++ py "world").

(** *** Reading a trace *)

(** The events that are work on a job: reading the input, calling the
    client, writing a file. *)
Definition is_work (e : event) : bool :=
  match e with
  | EvRead _ | EvGenerate _ | EvWrite _ _ => true
  | EvExists _ | EvSleep _ | EvLog _ _ => false
  end.

Definition is_generate (e : event) : bool :=
  match e with EvGenerate _ => true | _ => false end.

Definition is_write (e : event) : bool :=
  match e with EvWrite _ _ => true | _ => false end.

(** Number of calls of the client in a trace. *)
Definition calls (t : list event) : nat := length (filter (fun e => is_generate e = true) t).

(** A toy instance of the outside world: a client that is always out of
    quota, a [re.sub] that knows literal patterns only and rejects an
    unbalanced parenthesis, a prompt that is the text itself. *)
Definition toy_re_sub (pattern repl text : str) : outcome str :=
  if contains pattern (py "(") then Raise (py "missing ), unterminated subpattern")
  else Ok (replace text pattern repl).

Definition toy_externals : Externals := {|
  client := unit;
  generate_content := fun c _ => (Raise (py "429 RESOURCE_EXHAUSTED"), c);
  re_sub := toy_re_sub;
  get_rag_prompt := fun text _ _ _ _ => text;
  extract_metadata_from_filename := fun f => (f, py "N/A");
  current_date_str := py "3 de Novembro de 2026";
  can_write := fun _ => true
|}.

Definition toy_world (files : list (str * str)) : @world toy_externals :=
  @World toy_externals
         (list_to_map (map (fun kv => (fst kv, Ok (snd kv))) files)) tt [].

(** A client that fails with a rate-limit error on every invocation. *)
Definition always_rate_limited `{Ext : Externals} : Prop :=
  forall (c : client) (prompt : str),
    exists (e : str) (c' : client),
      generate_content c prompt = (Raise e, c') /\ rate_limited e = true.

(** What one attempt leaves in the trace when the client is rate
    limited: the call, the warning, the wait. *)
Definition rate_limited_attempt (prompt filename : str) (max_retries attempt : nat)
  : list event :=
  [EvGenerate prompt;
   EvLog WARNING (MsgRateLimit filename ((attempt + 1) * 5) (attempt + 1) max_retries);
   EvSleep ((attempt + 1) * 5)].

(** The text of a job after subtitle cleaning, when applicable. *)
Definition job_text (file_path content : str) : str :=
  if endswith (lower (Os.basename file_path)) (py ".srt")
  then clean_srt_content content else content.

(** What [process_file] logs between the existence check and the
    emptiness test. *)
Definition job_prologue (file_path output_dir : str) : list event :=
  let filename := Os.basename file_path in
  [EvExists (output_path file_path output_dir);
   EvLog INFO (MsgStarting filename);
   EvRead file_path]
  ++ (if endswith (lower filename) (py ".srt")
      then [EvLog INFO (MsgConverting filename)] else []).

(** *** File names *)

(** A stem: no slash, and not made of dots only. *)
Definition plain_stem (stem : str) : bool :=
  negb (existsb (Ascii.eqb "/") stem)
  && existsb (fun c => negb (Ascii.eqb c ".")) stem.

(** An extension after its dot: no slash and no further dot. *)
Definition plain_ext (ext : str) : bool :=
  negb (existsb (Ascii.eqb "/") ext) && negb (existsb (Ascii.eqb ".") ext).

(** The conditions of discovery in the words of the specification. *)
Definition has_recognized_extension (f : str) : bool :=
  endswith f (py ".txt") || endswith f (py ".srt").

Definition in_denylist (f : str) : bool := bool_decide (f ∈ excluded_files).

(** A name bears the output suffix when it ends with [_rag.txt], or when
    its stem ends with [_rag]. *)
Definition bears_output_suffix (f : str) : bool :=
  endswith f (py "_rag.txt") || endswith (fst (Os.splitext f)) (py "_rag").

Definition is_hidden (f : str) : bool := startswith f (py ".").

Definition spec_eligible (f : str) : bool :=
  has_recognized_extension f && negb (in_denylist f)
  && negb (bears_output_suffix f) && negb (is_hidden f).

Definition rule_foo_bar : rule := Rule (py "foo") (py "bar") false.
Definition rule_bar_baz : rule := Rule (py "bar") (py "baz") false.
Definition rule_bad_regex : rule := Rule (py "(foo") (py "x") true.

(** A directory with one transcript and its output, and one with a
    transcript only. *)
Definition world_done : @world toy_externals :=
  toy_world [(py "in/X.txt", py "hello"); (py "out/X_rag.txt", py "done")].

Definition world_fresh : @world toy_externals :=
  toy_world [(py "in/X.txt", py "hello")].

Definition world_blank : @world toy_externals :=
  toy_world [(py "in/X.srt", py "1" ++ [NL] ++ py "   ")].

(** *** Subtitle files written cue by cue *)

(** A cue as the subtitle format has it. *)
Record cue : Type := Cue {
  cue_number : str;
  cue_start : str;
  cue_end : str;
  cue_text : str
}.

(** A cue in the file: number line, timing line, text, blank line. *)
Definition render_cue (c : cue) : str :=
  cue_number c ++ NL :: cue_start c ++ py " --> " ++ cue_end c
  ++ NL :: cue_text c ++ [NL; NL].

Definition render (cues : list cue) : str := flat_map render_cue cues.

(** A sequence number: one digit or more. *)
Definition is_number (n : str) : bool := truthy n && forallb isdigit n.

(** A timestamp: exactly [hh:mm:ss,fff]. *)
Definition is_timestamp (t : str) : bool :=
  match match_timestamp t with
  | Some [] => true
  | _ => false
  end.

(** A cue text of one piece: no carriage return, no empty line inside,
    no newline at its end. *)
Definition is_cue_text (t : str) : bool :=
  negb (existsb (Ascii.eqb CR) t) && negb (contains (t ++ [NL]) [NL; NL]).

Definition well_formed_cue (c : cue) : bool :=
  is_number (cue_number c) && is_timestamp (cue_start c)
  && is_timestamp (cue_end c) && is_cue_text (cue_text c).

(** The cleaned text of a cue: trimmed, markup removed. *)
Definition clean_text (t : str) : str := remove_tags (strip t) false.

Definition sample_cues1 : list cue :=
  [Cue (py "1") (py "00:00:01,000") (py "00:00:02,500") (py "Hello");
   Cue (py "2") (py "00:00:02,500") (py "00:00:04,000")
       (py "Hello" ++ [NL] ++ py "world")].

Definition sample_cues2 : list cue :=
  [Cue (py "17") (py "01:10:00,250") (py "01:10:03,000") (py "Hello");
   Cue (py "4") (py "01:10:03,000") (py "01:10:09,125")
       (py "Hello" ++ [NL] ++ py "world")].

(** The header of a cue numbered [n], for the examples. *)
Definition sample_header (n : string) : str :=
  py n ++ [NL] ++ py "00:00:01,000 --> 00:00:02,000" ++ [NL].

(** * The rest of the program *)

(** ** Loading the rules: [load_rules] *)

Module Rules.

(** Iterating over a text file: its lines, each with its newline. *)
Fixpoint file_lines (s : str) : list str :=
  match s with
  | [] => []
  | c :: t =>
      if Ascii.eqb c NL then [NL] :: file_lines t
      else match file_lines t with
           | [] => [[c]]
           | l :: ls => (c :: l) :: ls
           end
  end.

(** [line.split('->', 1)] for a line in which [->] occurs: what is before
    the first occurrence and what is after it. *)
Fixpoint split_arrow (s : str) : option (str * str) :=
  match s with
  | [] => None
  | c :: t =>
      if startswith s (py "->") then Some ([], drop 2 s)
      else match split_arrow t with
           | Some (a, b) => Some (c :: a, b)
           | None => None
           end
  end.

(** The body of the loop over the lines: the rule of one line, if any. *)
Definition parse_line (line : str) : option rule :=
  let line := strip line in
  if negb (truthy line) || startswith line (py "#") then None
  else
    let is_regex := startswith line (py "REGEX:") in
    let line := if is_regex then strip (drop 6 line) else line in
    if contains line (py "->") then
      match split_arrow line with
      | Some (part0, part1) => Some (Rule (strip part0) (strip part1) is_regex)
      | None => None
      end
    else None.

(** The rules of a file with this text, in the order of its lines. *)
Definition parse_rules (content : str) : list rule :=
  omap parse_line (file_lines content).



End Rules.

(** ** File-name heuristics: [extract_metadata_from_filename] *)

Module Metadata.

(** [str.upper] of one character, for the characters whose upper case is
    a single character below 256. *)
Definition upper_char (c : ascii) : ascii :=
  let n := nat_of_ascii c in
  if ((97 <=? n) && (n <=? 122))
     || ((224 <=? n) && (n <=? 254) && negb (n =? 247))
  then ascii_of_nat (n - 32) else c.

(** [str.capitalize], as it acts on group 1 of the date pattern. *)
Definition capitalize (s : str) : str :=
  match s with
  | [] => []
  | c :: t => upper_char c :: lower t
  end.

Definition c_cedilla : ascii := "231"%char.
Definition a_tilde : ascii := "227"%char.

Definition months_map : list (str * str) :=
  [(py "Jan", py "Janeiro"); (py "Fev", py "Fevereiro");
   (py "Mar", py "Mar" ++ [c_cedilla] ++ py "o"); (py "Abr", py "Abril");
   (py "Mai", py "Maio"); (py "Jun", py "Junho"); (py "Jul", py "Julho");
   (py "Ago", py "Agosto"); (py "Set", py "Setembro");
   (py "Out", py "Outubro"); (py "Nov", py "Novembro");
   (py "Dez", py "Dezembro")].

(** [months_map.get(key)]. *)
Fixpoint get (key : str) (m : list (str * str)) : option str :=
  match m with
  | [] => None
  | (k, v) :: rest => if str_eqb k key then Some v else get key rest
  end.

(** The alternation of the date pattern. *)
Definition month_alternatives : list str :=
  [py "Jan"; py "Fev"; py "Mar"; py "Abr"; py "Mai"; py "Jun";
   py "Jul"; py "Ago"; py "Set"; py "Out"; py "Nov"; py "Dez"].

(** A literal of the pattern matched at the start of [s] under [re.I]. *)
Fixpoint istartswith (s p : str) {struct p} : bool :=
  match p, s with
  | [], _ => true
  | _ :: _, [] => false
  | a :: p', b :: s' => Ascii.eqb (lower_char a) (lower_char b) && istartswith s' p'
  end.

(** The date pattern matched at the start of [s]: groups 1 and 2.  The
    whitespace is taken greedily; giving some back never helps, since a
    digit has to follow. *)
Definition match_date (s : str) : option (str * str) :=
  match find (istartswith s) month_alternatives with
  | Some alt =>
      let after_month := drop (length alt) s in
      let after_space := lstrip after_month in
      if (length after_space <? length after_month)
         && (4 <=? length after_space)
         && forallb isdigit (take 4 after_space)
      then Some (take (length alt) s, take 4 after_space)
      else None
  | None => None
  end.

(** [re.search]: the leftmost match. *)
Fixpoint search_date (s : str) : option (str * str) :=
  match match_date s with
  | Some groups => Some groups
  | None =>
      match s with
      | [] => None
      | _ :: t => search_date t
      end
  end.

Definition transcricao (ext : string) : str :=
  py " Transcri" ++ [c_cedilla; a_tilde] ++ py "o" ++ py ext.

Definition clean_name (filename : str) : str :=
  let clean_name := replace (replace filename (transcricao ".txt") []) (py ".txt") [] in
  let clean_name := replace (replace clean_name (transcricao ".srt") []) (py ".srt") [] in
  strip clean_name.

(** The pair is [title], [event_date]. *)
Definition extract_metadata_from_filename (filename : str) : str * str :=
  let clean_name := clean_name filename in
  match search_date clean_name with
  | Some (group1, year) =>
      let month_abbr := capitalize group1 in
      let key := take 3 month_abbr in
      let full_month :=
        match get key months_map with
        | Some m => m
        | None => month_abbr
        end in
      let event_date := full_month ++ py " de " ++ year in
      let title :=
        if contains clean_name (py "MasterMind")
        then py "MasterMind " ++ full_month ++ py " " ++ year
        else clean_name in
      (title, event_date)
  | None => (clean_name, py "N/A")
  end.

End Metadata.

(** ** Definitions for the statements about the rest *)

(** A string without whitespace at its ends. *)
Definition trimmed (s : str) : bool :=
  match s with
  | [] => true
  | c :: _ => negb (isspace c)
  end
  && match last s with
     | Some c => negb (isspace c)
     | None => true
     end.

(** A line of a subtitle: not empty, no newline, no whitespace at its
    ends. *)
Definition is_line (l : str) : bool :=
  truthy l && trimmed l && negb (existsb (Ascii.eqb NL) l).

(** The blocks of a rollup subtitle that shows two lines at a time: the
    first line alone, then every line under the one before it. *)
Fixpoint rollup_from (prev : str) (lines : list str) : list str :=
  match lines with
  | [] => []
  | l :: rest => (prev ++ NL :: l) :: rollup_from l rest
  end.

Definition rollup_blocks (lines : list str) : list str :=
  match lines with
  | [] => []
  | l :: rest => l :: rollup_from l rest
  end.

(** No line is shown twice in a row. *)
Fixpoint no_repeat (lines : list str) : bool :=
  match lines with
  | a :: (b :: _) as rest => negb (str_eqb a b) && no_repeat rest
  | _ => true
  end.

(** A text with Windows line ends. *)
Definition to_crlf (s : str) : str := replace s [NL] [CR; NL].




(** Seconds slept in a trace. *)
Definition slept (t : list event) : nat :=
  list_sum (map (fun e => match e with EvSleep n => n | _ => 0 end) t).

(** A client every call of which fails with an error that is not a rate
    limit. *)
Definition always_other_error `{Ext : Externals} : Prop :=
  forall (c : client) (prompt : str),
    exists (e : str) (c' : client),
      generate_content c prompt = (Raise e, c') /\ rate_limited e = false.

(** A toy client that fails with a server error. *)
Definition failing_externals : Externals := {|
  client := unit;
  generate_content := fun c _ => (Raise (py "500 INTERNAL"), c);
  re_sub := toy_re_sub;
  get_rag_prompt := fun text _ _ _ _ => text;
  extract_metadata_from_filename := Metadata.extract_metadata_from_filename;
  current_date_str := py "3 de Novembro de 2026";
  can_write := fun _ => true
|}.

(** A toy client that answers with a fixed text. *)
Definition answering_externals : Externals := {|
  client := unit;
  generate_content := fun c _ => (Ok (Some (py "# foo")), c);
  re_sub := toy_re_sub;
  get_rag_prompt := fun text _ _ _ _ => text;
  extract_metadata_from_filename := Metadata.extract_metadata_from_filename;
  current_date_str := py "3 de Novembro de 2026";
  can_write := fun _ => true
|}.

(** The text [enforce_terminology] returns, without its log. *)
Definition rules_result `{Ext : Externals} (text : str) (rules : list rule) : str :=
  fold_left
    (fun text r =>
       if is_regex r then
         match re_sub (original r) (replacement r) text with
         | Ok text' => text'
         | Raise _ => text
         end
       else replace text (original r) (replacement r))
    rules text.

(** Worlds for the toy clients. *)
Definition failing_world (files : list (str * str)) : @world failing_externals :=
  @World failing_externals
         (list_to_map (map (fun kv => (fst kv, Ok (snd kv))) files)) tt [].

Definition answering_world (files : list (str * str)) : @world answering_externals :=
  @World answering_externals
         (list_to_map (map (fun kv => (fst kv, Ok (snd kv))) files)) tt [].

Definition sample_rollup_lines : list str :=
  [py "good evening"; py "and welcome"; py "to the show"].


Definition is_log (e : event) : bool :=
  match e with EvLog _ _ => true | _ => false end.

(** * The model on concrete inputs *)

(** ** Strings and paths *)

Example strip_example :
  strip (py "  a b " ++ ["133"%char]) = py "a b".
Proof. reflexivity. Qed.

Example split_example :
  split NL (py "A" ++ [NL] ++ py "B" ++ [NL; NL] ++ py " C ")
  = [py "A"; py "B"; []; py " C "].
Proof. reflexivity. Qed.

Example replace_empty_pattern : replace (py "abc") [] (py "-") = py "-a-b-c-".
Proof. reflexivity. Qed.

Example replace_no_overlap : replace (py "aaa") (py "aa") (py "b") = py "ba".
Proof. reflexivity. Qed.

Example lower_example : lower (py "aXbQUOTA") = py "axbquota".
Proof. reflexivity. Qed.

Example splitext_example : Os.splitext (py "X.txt") = (py "X", py ".txt").
Proof. reflexivity. Qed.

Example splitext_hidden : Os.splitext (py ".bashrc") = (py ".bashrc", []).
Proof. reflexivity. Qed.

Example splitext_dot_in_directory : Os.splitext (py "a/b.c/d") = (py "a/b.c/d", []).
Proof. reflexivity. Qed.

Example splitext_leading_dots : Os.splitext (py "a/..x.y") = (py "a/..x", py ".y").
Proof. reflexivity. Qed.

Example splitext_only_dots : Os.splitext (py "a.b/..c") = (py "a.b/..c", []).
Proof. reflexivity. Qed.

Example basename_example : Os.basename (py "a/b/c.txt") = py "c.txt".
Proof. reflexivity. Qed.

Example join_example :
  Os.join (py "a") (py "c.txt") = py "a/c.txt"
  /\ Os.join (py "a/") (py "c.txt") = py "a/c.txt"
  /\ Os.join [] (py "c.txt") = py "c.txt"
  /\ Os.join (py "a") (py "/c") = py "/c".
Proof. repeat split. Qed.

(** ** The cue pattern *)

Example finditer_two_cues :
  finditer (sample_header "1" ++ py "Hello" ++ [NL; NL]
            ++ sample_header "2" ++ py "Hello" ++ [NL] ++ py "world" ++ [NL]) 0
  = [py "Hello"; py "Hello" ++ [NL] ++ py "world"].
Proof. vm_compute. reflexivity. Qed.

Example finditer_empty_text :
  finditer (sample_header "1" ++ [NL; NL] ++ sample_header "2" ++ py "x") 0
  = [[]; py "x"].
Proof. vm_compute. reflexivity. Qed.

(** A cue that follows a single newline belongs to the text before it. *)
Example finditer_swallowed_cue :
  finditer (sample_header "12" ++ py "a" ++ [NL] ++ sample_header "2"
            ++ py "b" ++ [NL; NL; NL] ++ sample_header "3" ++ py "c" ++ [NL; NL]) 0
  = [py "a" ++ [NL] ++ sample_header "2" ++ py "b"; py "c"].
Proof. vm_compute. reflexivity. Qed.

Example finditer_header_only :
  finditer (sample_header "1") 0 = [[]]
  /\ finditer (sample_header "1" ++ [NL]) 0 = [[]].
Proof. split; vm_compute; reflexivity. Qed.

(** A block can be blank: markup is removed after trimming. *)
Example parse_blocks_markup :
  parse_blocks (py "x" ++ sample_header "1" ++ py "<b> </b>" ++ [NL; NL]
                ++ sample_header "7" ++ py " a<i" ++ [NL] ++ py ">b " ++ [NL])
  = [py " "; py "ab"].
Proof. vm_compute. reflexivity. Qed.

Example remove_tags_example :
  remove_tags (py "<a<b>x<y") false = py "x<y"
  /\ remove_tags (py "q<a" ++ [NL] ++ py "b>x<y>>") false = py "qx>".
Proof. split; reflexivity. Qed.

(** ** Discovery *)

Example eligible_examples :
  eligible (py "talk.srt") = true
  /\ eligible (py "my_rag_notes.txt") = false
  /\ eligible (py "rules.txt") = false
  /\ eligible (py ".talk.txt") = false.
Proof. repeat split. Qed.

(** ** Rules and file names *)

Example file_lines_example :
  Rules.file_lines (py "a" ++ [NL] ++ py "b" ++ [NL; NL] ++ py "c")
  = [py "a" ++ [NL]; py "b" ++ [NL]; [NL]; py "c"].
Proof. reflexivity. Qed.

Example parse_rules_example :
  Rules.parse_rules
    (py "# terms" ++ [NL] ++ py "Seven Mountains -> Sete Montes" ++ [NL; NL]
     ++ py "no arrow here" ++ [NL] ++ py "REGEX: igreja\b->Ekklezia ->x" ++ [NL]
     ++ py "->y")
  = [Rule (py "Seven Mountains") (py "Sete Montes") false;
     Rule (py "igreja\b") (py "Ekklezia ->x") true;
     Rule [] (py "y") false].
Proof. vm_compute. reflexivity. Qed.

Example extract_metadata_mastermind :
  Metadata.extract_metadata_from_filename
    (py "Live MasterMind jan  2026" ++ Metadata.transcricao ".txt")
  = (py "MasterMind Janeiro 2026", py "Janeiro de 2026").
Proof. vm_compute. reflexivity. Qed.

Example extract_metadata_plain :
  Metadata.extract_metadata_from_filename (py "Aula 3 mar 99.srt")
  = (py "Aula 3 mar 99", py "N/A")
  /\ Metadata.extract_metadata_from_filename (py "Aula MAR" ++ ["009"%char] ++ py "20267.srt")
     = (py "Aula MAR" ++ ["009"%char] ++ py "20267",
        py "Mar" ++ [Metadata.c_cedilla] ++ py "o de 2026").
Proof. split; vm_compute; reflexivity. Qed.
(** ** The deduplication loop, pair by pair *)

Section DedupLoop.

Lemma nth_middle_app (pre : list str) (x : str) (post : list str) :
  nth (length pre) (pre ++ x :: post) [] = x.
Proof. induction pre as [|a pre IH]; simpl; auto. Qed.

Lemma dedup_loop_from (blocks pre : list str) (prev : str) (rest acc : list str) :
  blocks = pre ++ prev :: rest ->
  foldl (fun acc i => acc ++ emitted (nth (i - 1) blocks []) (nth i blocks []))
        acc (seq (S (length pre)) (length rest))
  = acc ++ chain prev rest.
Proof.
  revert pre prev acc.
  induction rest as [|curr rest IH]; intros pre prev acc Hb.
  - simpl. now rewrite app_nil_r.
  - cbn [length seq foldl chain].
    replace (S (length pre) - 1) with (length pre) by lia.
    assert (Hprev : nth (length pre) blocks [] = prev)
      by (subst blocks; apply nth_middle_app).
    assert (Hb' : blocks = (pre ++ [prev]) ++ curr :: rest)
      by (subst blocks; now rewrite <- app_assoc).
    assert (Hcurr : nth (S (length pre)) blocks [] = curr).
    { rewrite Hb'. replace (S (length pre)) with (length (pre ++ [prev])).
      - apply nth_middle_app.
      - rewrite length_app. simpl. lia. }
    rewrite Hprev, Hcurr.
    specialize (IH (pre ++ [prev]) curr (acc ++ emitted prev curr) Hb').
    rewrite length_app in IH. simpl in IH.
    replace (length pre + 1) with (S (length pre)) in IH by lia.
    rewrite IH. now rewrite <- app_assoc.
Qed.

Lemma dedup_lines_chain (b0 : str) (rest : list str) :
  dedup_lines (b0 :: rest) = b0 :: chain b0 rest.
Proof.
  unfold dedup_lines, dedup_loop. cbn [length].
  replace (S (length rest) - 1) with (length rest) by lia.
  apply (dedup_loop_from (b0 :: rest) [] b0 rest [b0]). reflexivity.
Qed.

Lemma chain_app (x : str) (l : list str) (y : str) (post : list str) :
  chain x (l ++ y :: post) = chain x (l ++ [y]) ++ chain y post.
Proof.
  revert x. induction l as [|a l IH]; intros x; simpl.
  - now rewrite app_nil_r.
  - rewrite IH. now rewrite app_assoc.
Qed.

(** The pass is local: around two neighbours [prev], [curr] the output
    is what came before, then what the pair emits, then what follows. *)
Lemma dedup_lines_pair (pre : list str) (prev curr : str) (post : list str) :
  dedup_lines (pre ++ prev :: curr :: post)
  = dedup_lines (pre ++ [prev]) ++ emitted prev curr
    ++ tail (dedup_lines (curr :: post)).
Proof.
  rewrite (dedup_lines_chain curr post). cbn [tail].
  destruct pre as [|b0 pre]; cbn [app].
  - rewrite !dedup_lines_chain. reflexivity.
  - rewrite !dedup_lines_chain.
    rewrite (chain_app b0 pre prev (curr :: post)). reflexivity.
Qed.

End DedupLoop.


(** ** The start index, code against specification *)

Section StartIndex.

Lemma last_cons_is_Some (a : str) (l : list str) : is_Some (last (a :: l)).
Proof.
  revert a. induction l as [|b l IH]; intros a.
  - now exists a.
  - change (last (a :: b :: l)) with (last (b :: l)). apply IH.
Qed.

Lemma take_eq_prefix (pl cl : list str) :
  lines_eqb (take (length pl) cl) pl = spec_is_prefix pl cl.
Proof.
  unfold lines_eqb, spec_is_prefix. apply bool_decide_ext. split.
  - intros H. exists (drop (length pl) cl).
    rewrite <- H at 1. symmetry. apply take_drop.
  - intros [k ->]. apply take_app_length.
Qed.

Lemma start_idx_spec (pl cl : list str) :
  start_idx pl cl = spec_start_idx pl cl.
Proof.
  unfold start_idx, spec_start_idx.
  destruct pl as [|p pl].
  - simpl. now destruct (_ && _).
  - destruct cl as [|c cl].
    + simpl. now destruct (last (p :: pl)).
    + cbn [truthy andb head].
      destruct (last_cons_is_Some p pl) as [a Ha]. rewrite Ha.
      rewrite take_eq_prefix. unfold str_eqb.
      rewrite (bool_decide_ext (Some c = Some a) (a = c)); [reflexivity|].
      split; congruence.
Qed.

End StartIndex.

(** ** Parsing a file written cue by cue *)

(** Lists built with [++] and [::], associated to the right. *)
Ltac norm_app :=
  repeat (rewrite <- app_assoc || rewrite <- app_comm_cons); cbn [app].

Section Rendered.

Local Arguments Ascii.eqb : simpl never.

Lemma skip_digits_number (n : str) (r : str) :
  forallb isdigit n = true -> skip_digits (n ++ NL :: r) = NL :: r.
Proof.
  induction n as [|c n IH]; intros Hn.
  - reflexivity.
  - cbn [forallb] in Hn. apply andb_prop in Hn as [Hc Hn].
    cbn [app skip_digits]. rewrite Hc. now apply IH.
Qed.

Lemma match_timestamp_app (t r : str) :
  is_timestamp t = true -> match_timestamp (t ++ r) = Some r.
Proof.
  unfold is_timestamp. intros Ht.
  do 12 (destruct t as [|? t]; [discriminate Ht|]).
  cbn [match_timestamp] in Ht. cbn [app match_timestamp].
  destruct (_ && _); [|discriminate Ht].
  destruct t; [reflexivity|discriminate Ht].
Qed.

Lemma match_lit_app (lit r : str) : match_lit lit (lit ++ r) = Some r.
Proof.
  unfold match_lit.
  assert (Hsw : startswith (lit ++ r) lit = true).
  { induction lit as [|c lit IH]; [reflexivity|].
    cbn [app startswith]. now rewrite Ascii.eqb_refl. }
  rewrite Hsw. now rewrite drop_app_length.
Qed.

Lemma match_header_render (n t1 t2 body : str) :
  is_number n = true -> is_timestamp t1 = true -> is_timestamp t2 = true ->
  match_header (n ++ NL :: t1 ++ py " --> " ++ t2 ++ NL :: body) = Some body.
Proof.
  unfold is_number. intros [Hne Hn]%andb_prop Ht1 Ht2.
  destruct n as [|c n]; [discriminate Hne|].
  unfold match_header. cbn [app].
  pose proof Hn as Hn'. cbn [forallb] in Hn'.
  apply andb_prop in Hn' as [Hc _]. rewrite Hc.
  change (c :: n ++ NL :: t1 ++ py " --> " ++ t2 ++ NL :: body)
    with ((c :: n) ++ NL :: t1 ++ py " --> " ++ t2 ++ NL :: body).
  rewrite (skip_digits_number (c :: n) _ Hn).
  change (NL :: t1 ++ py " --> " ++ t2 ++ NL :: body)
    with ([NL] ++ t1 ++ py " --> " ++ t2 ++ NL :: body).
  rewrite match_lit_app. cbn [mbind option_bind].
  rewrite (match_timestamp_app t1 _ Ht1). cbn [mbind option_bind].
  rewrite match_lit_app. cbn [mbind option_bind].
  rewrite (match_timestamp_app t2 _ Ht2). cbn [mbind option_bind].
  apply (match_lit_app [NL] body).
Qed.

Lemma match_text_render (t r : str) :
  contains (t ++ [NL]) [NL; NL] = false ->
  match_text (t ++ NL :: NL :: r) = t.
Proof.
  induction t as [|c t IH]; intros Hc.
  - cbn [app match_text at_block_end]. now rewrite Ascii.eqb_refl.
  - cbn [app contains] in Hc. apply orb_false_elim in Hc as [Hsw Hc].
    cbn [app match_text].
    assert (Hend : at_block_end (c :: t ++ NL :: NL :: r) = false).
    { cbn [startswith] in Hsw. rewrite (Ascii.eqb_sym NL c) in Hsw.
      destruct t as [|d t].
      - cbn [app at_block_end]. cbn [app startswith] in Hsw.
        rewrite Ascii.eqb_refl in *. cbn [andb] in Hsw. exact Hsw.
      - cbn [app at_block_end]. cbn [app startswith] in Hsw.
        rewrite (Ascii.eqb_sym NL d), andb_true_r in Hsw. exact Hsw. }
    rewrite Hend. f_equal. now apply IH.
Qed.

Lemma finditer_skip (a b : str) : finditer (a ++ b) (length a) = finditer b 0.
Proof. induction a as [|c a IH]; [reflexivity|exact IH]. Qed.

Lemma finditer_newline (r : str) : finditer (NL :: r) 0 = finditer r 0.
Proof. reflexivity. Qed.

(** The matches of the pattern in a rendered file are its cues, and
    group 4 of each is the text of the cue. *)
Lemma finditer_render (cues : list cue) :
  forallb well_formed_cue cues = true ->
  finditer (render cues) 0 = map cue_text cues.
Proof.
  induction cues as [|c cues IH]; intros Hwf; [reflexivity|].
  cbn [forallb] in Hwf. apply andb_prop in Hwf as [Hc Hwf].
  unfold well_formed_cue in Hc.
  apply andb_prop in Hc as [Hc Htext].
  apply andb_prop in Hc as [Hc Ht2].
  apply andb_prop in Hc as [Hn Ht1].
  unfold is_cue_text in Htext. apply andb_prop in Htext as [_ Htext].
  apply negb_true_iff in Htext.
  change (render (c :: cues)) with (render_cue c ++ render cues).
  unfold render_cue.
  set (rest := render cues) in *.
  assert (Hs : (cue_number c ++ NL :: cue_start c ++ py " --> " ++ cue_end c
                ++ NL :: cue_text c ++ [NL; NL]) ++ rest
               = cue_number c ++ NL :: cue_start c ++ py " --> " ++ cue_end c
                 ++ NL :: cue_text c ++ NL :: NL :: rest).
  { norm_app. reflexivity. }
  rewrite Hs.
  pose proof (match_header_render (cue_number c) (cue_start c) (cue_end c)
                (cue_text c ++ NL :: NL :: rest) Hn Ht1 Ht2) as Hh.
  destruct (cue_number c) as [|d n] eqn:Hnum; [discriminate Hn|].
  cbn [app] in *. cbn [finditer]. unfold match_here. rewrite Hh.
  rewrite (match_text_render _ rest Htext). cbn [map]. f_equal.
  set (hdr := n ++ NL :: cue_start c ++ py " --> " ++ cue_end c ++ [NL]).
  assert (Ht : n ++ NL :: cue_start c ++ py " --> " ++ cue_end c
               ++ NL :: cue_text c ++ NL :: NL :: rest
               = (hdr ++ cue_text c) ++ NL :: NL :: rest).
  { subst hdr. norm_app. reflexivity. }
  rewrite Ht.
  replace (length (d :: (hdr ++ cue_text c) ++ NL :: NL :: rest)
           - length (cue_text c ++ NL :: NL :: rest) + length (cue_text c) - 1)
    with (length (hdr ++ cue_text c)).
  - rewrite finditer_skip. rewrite !finditer_newline. now apply IH.
  - cbn [length]. rewrite !length_app. cbn [length]. lia.
Qed.

Lemma replace_from_absent (c : ascii) (old new s : str) :
  ~ In c s -> replace_from (c :: old) new s 0 = s.
Proof.
  induction s as [|x s IH]; intros Hn; [reflexivity|].
  cbn [replace_from startswith].
  destruct (Ascii.eqb_spec c x) as [->|_].
  - exfalso. apply Hn. now left.
  - cbn [andb]. f_equal. apply IH. intros H. apply Hn. now right.
Qed.

Lemma digit_not_CR (c : ascii) : isdigit c = true -> c <> CR.
Proof. intros H ->. discriminate H. Qed.

Lemma number_no_CR (n : str) : forallb isdigit n = true -> ~ In CR n.
Proof.
  intros Hn Hin. rewrite forallb_forall in Hn.
  apply (digit_not_CR CR); [now apply Hn|reflexivity].
Qed.

Lemma timestamp_no_CR (t : str) : is_timestamp t = true -> ~ In CR t.
Proof.
  unfold is_timestamp. intros Ht.
  do 12 (destruct t as [|? t]; [discriminate Ht|]).
  cbn [match_timestamp] in Ht.
  destruct (_ && _) eqn:Hc; [|discriminate Ht].
  destruct t; [|discriminate Ht].
  do 11 (apply andb_prop in Hc as [Hc ?]).
  intros Hin. cbn [In] in Hin.
  repeat match goal with
         | H : isdigit _ = true |- _ => apply digit_not_CR in H
         | H : Ascii.eqb _ _ = true |- _ => apply Ascii.eqb_eq in H; subst
         end.
  repeat (destruct Hin as [Hin|Hin]; [try congruence; try discriminate Hin|]).
  exact Hin.
Qed.

Lemma render_no_CR (cues : list cue) :
  forallb well_formed_cue cues = true -> ~ In CR (render cues).
Proof.
  induction cues as [|c cues IH]; intros Hwf; [intros []|].
  cbn [forallb] in Hwf. apply andb_prop in Hwf as [Hc Hwf].
  unfold well_formed_cue in Hc.
  apply andb_prop in Hc as [Hc Htext].
  apply andb_prop in Hc as [Hc Ht2].
  apply andb_prop in Hc as [Hn Ht1].
  unfold is_number in Hn. apply andb_prop in Hn as [_ Hn].
  unfold is_cue_text in Htext. apply andb_prop in Htext as [Htext _].
  apply negb_true_iff in Htext.
  pose proof (number_no_CR _ Hn) as H1.
  pose proof (timestamp_no_CR _ Ht1) as H2.
  pose proof (timestamp_no_CR _ Ht2) as H3.
  assert (H4 : ~ In CR (cue_text c)).
  { intros Hin. assert (Hex : existsb (Ascii.eqb CR) (cue_text c) = true).
    { apply existsb_exists. exists CR. split; [exact Hin|apply Ascii.eqb_refl]. }
    congruence. }
  change (render (c :: cues)) with (render_cue c ++ render cues).
  unfold render_cue. intros Hin.
  repeat (apply in_app_or in Hin as [Hin|Hin] || destruct Hin as [Hin|Hin]);
    try contradiction; try discriminate Hin.
  now apply IH.
Qed.

(** The cleaned blocks of a rendered file are the cleaned texts of its
    cues that are not empty. *)
Lemma cleaned_blocks_render (cues : list cue) :
  forallb well_formed_cue cues = true ->
  cleaned_blocks (render cues)
  = filter (fun b => truthy b = true) (map clean_text (map cue_text cues)).
Proof.
  intros Hwf. unfold cleaned_blocks, parse_blocks, replace.
  rewrite replace_from_absent by now apply render_no_CR.
  rewrite finditer_render by exact Hwf. reflexivity.
Qed.

End Rendered.

(** ** Paths *)

Section Paths.

Local Arguments Ascii.eqb : simpl never.

Lemma existsb_eqb_false (c : ascii) (s : str) :
  existsb (Ascii.eqb c) s = false -> ~ In c s.
Proof.
  intros H Hin.
  assert (Hex : existsb (Ascii.eqb c) s = true).
  { apply existsb_exists. exists c. split; [exact Hin|apply Ascii.eqb_refl]. }
  congruence.
Qed.

Lemma rfind_absent (c : ascii) (s : str) : ~ In c s -> Os.rfind c s = None.
Proof.
  induction s as [|x s IH]; intros Hn; [reflexivity|].
  cbn [Os.rfind]. rewrite IH by (intros H; apply Hn; now right).
  destruct (Ascii.eqb_spec x c) as [->|_]; [|reflexivity].
  exfalso. apply Hn. now left.
Qed.

Lemma rfind_last (c : ascii) (a f : str) :
  ~ In c f -> Os.rfind c (a ++ c :: f) = Some (length a).
Proof.
  intros Hn. induction a as [|x a IH].
  - cbn [app Os.rfind length]. rewrite (rfind_absent c f Hn).
    now rewrite Ascii.eqb_refl.
  - cbn [app Os.rfind length]. now rewrite IH.
Qed.

Lemma drop_past (a : str) (c : ascii) (f : str) :
  drop (S (length a)) (a ++ c :: f) = f.
Proof. induction a as [|x a IH]; [reflexivity|exact IH]. Qed.

Lemma basename_after_slash (a f : str) :
  ~ In "/"%char f -> Os.basename (a ++ "/"%char :: f) = f.
Proof.
  intros Hn. unfold Os.basename. rewrite (rfind_last _ a f Hn).
  apply drop_past.
Qed.

Lemma startswith_one_last (a : str) (c : ascii) :
  startswith (rev a) [c] = true -> exists a', a = a' ++ [c].
Proof.
  destruct (rev a) as [|x r] eqn:Hr; cbn; [discriminate|].
  destruct (Ascii.eqb_spec c x) as [->|_]; [|discriminate].
  intros _. exists (rev r).
  rewrite <- (rev_involutive a), Hr. reflexivity.
Qed.

(** The base name of [os.path.join(dir, f)] is [f], for a name without
    slash. *)
Lemma basename_join (dir f : str) :
  ~ In "/"%char f -> Os.basename (Os.join dir f) = f.
Proof.
  intros Hn. unfold Os.join.
  assert (Hsw : startswith f (py "/") = false).
  { destruct f as [|x f]; [reflexivity|]. cbn.
    destruct (Ascii.eqb_spec "/"%char x) as [<-|_]; [|reflexivity].
    exfalso. apply Hn. now left. }
  rewrite Hsw.
  destruct dir as [|d dir].
  - cbn. unfold Os.basename. now rewrite (rfind_absent _ f Hn).
  - cbn [truthy negb orb].
    destruct (endswith (d :: dir) (py "/")) eqn:He.
    + apply startswith_one_last in He. destruct He as [a' ->].
      rewrite <- app_assoc. cbn [app]. now apply basename_after_slash.
    + change (py "/" ++ f) with ("/"%char :: f). now apply basename_after_slash.
Qed.

Lemma forallb_dot_false (stem : str) :
  existsb (fun c => negb (Ascii.eqb c ".")) stem = true ->
  forallb (Ascii.eqb ".") stem = false.
Proof.
  induction stem as [|x stem IH]; cbn; [discriminate|].
  rewrite (Ascii.eqb_sym "." x).
  destruct (Ascii.eqb x "."); cbn; [exact IH|reflexivity].
Qed.

(** [splitext] of a plain name [stem.ext]. *)
Lemma splitext_plain (stem ext : str) :
  plain_stem stem = true -> plain_ext ext = true ->
  Os.splitext (stem ++ "."%char :: ext) = (stem, "."%char :: ext).
Proof.
  unfold plain_stem, plain_ext.
  intros [Hs1 Hs2]%andb_prop [He1 He2]%andb_prop.
  apply negb_true_iff, existsb_eqb_false in Hs1, He1, He2.
  unfold Os.splitext.
  rewrite (rfind_absent "/"%char).
  - rewrite (rfind_last "."%char stem ext He2).
    cbn [Nat.leb andb]. rewrite take_app_length.
    change (drop 0 stem) with stem.
    rewrite (forallb_dot_false stem Hs2). cbn [negb].
    rewrite drop_app_length. reflexivity.
  - intros [H|H]%in_app_iff; [now apply Hs1|].
    destruct H as [H|H]; [discriminate|now apply He1].
Qed.

Lemma plain_name_no_slash (stem ext : str) :
  plain_stem stem = true -> plain_ext ext = true ->
  ~ In "/"%char (stem ++ "."%char :: ext).
Proof.
  unfold plain_stem, plain_ext.
  intros [Hs1 _]%andb_prop [He1 _]%andb_prop.
  apply negb_true_iff, existsb_eqb_false in Hs1, He1.
  intros [H|H]%in_app_iff; [now apply Hs1|].
  destruct H as [H|H]; [discriminate|now apply He1].
Qed.

End Paths.

(** ** The pipeline *)

Section PipelineFacts.

Context `{Ext : Externals}.

Lemma bind_assoc {A B C} (m : M A) (f : A -> M B) (g : B -> M C) (w : world) :
  bind (bind m f) g w = bind m (fun a => bind (f a) g) w.
Proof. unfold bind. destruct (m w) as [[a|e] w']; reflexivity. Qed.

Lemma bind_ext {A B} (m : M A) (f g : A -> M B) (w : world) :
  (forall a w', f a w' = g a w') -> bind m f w = bind m g w.
Proof.
  intros Hfg. unfold bind. destruct (m w) as [[a|e] w']; [apply Hfg|reflexivity].
Qed.

Lemma enforce_terminology_app (text : str) (rs1 rs2 : list rule) (w : world) :
  enforce_terminology text (rs1 ++ rs2) w
  = bind (enforce_terminology text rs1)
         (fun t => enforce_terminology t rs2) w.
Proof.
  revert text w. induction rs1 as [|r rs1 IH]; intros text w.
  - reflexivity.
  - cbn [app enforce_terminology]. rewrite bind_assoc.
    apply bind_ext. intros t w'. apply IH.
Qed.

(** One rule never raises. *)
Lemma apply_rule_ok (text : str) (r : rule) (w : world) :
  exists t w', apply_rule text r w = (Ok t, w') /\ fs w' = fs w /\ gemini w' = gemini w.
Proof.
  unfold apply_rule. destruct (is_regex r).
  - unfold try_except, lift, bind, log, ret.
    destruct (re_sub (original r) (replacement r) text) as [t|e]; eauto.
  - unfold ret. eauto.
Qed.

Lemma enforce_terminology_ok (text : str) (rules : list rule) (w : world) :
  exists t w', enforce_terminology text rules w = (Ok t, w')
               /\ fs w' = fs w /\ gemini w' = gemini w.
Proof.
  revert text w. induction rules as [|r rules IH]; intros text w.
  - exists text, w. auto.
  - cbn [enforce_terminology]. unfold bind.
    destruct (apply_rule_ok text r w) as (t & w1 & -> & Hfs & Hg).
    destruct (IH t w1) as (t' & w2 & -> & Hfs' & Hg').
    exists t', w2. repeat split; congruence.
Qed.

(** The skip of a job whose output is there. *)
Lemma process_file_skip (file_path output_dir : str) (rules : list rule) (w : world) :
  is_Some (fs w !! output_path file_path output_dir) ->
  process_file file_path output_dir rules w
  = (Ok tt, record (EvLog INFO (MsgSkipping (Os.basename file_path)))
                   (record (EvExists (output_path file_path output_dir)) w)).
Proof.
  intros Hex. unfold process_file, bind, path_exists.
  rewrite bool_decide_eq_true_2 by exact Hex. reflexivity.
Qed.

Lemma calls_app (t1 t2 : list event) : calls (t1 ++ t2) = calls t1 + calls t2.
Proof. unfold calls. now rewrite filter_app, length_app. Qed.

(** The retry loop against a client that is always rate limited: every
    attempt is made, and the loop falls through to the empty result. *)
Lemma retry_loop_exhausted (attempts : list nat) (prompt filename : str)
      (max_retries : nat) (w : world) :
  always_rate_limited ->
  exists w',
    retry_loop attempts prompt filename max_retries w = (Ok (Some []), w')
    /\ fs w' = fs w
    /\ trace w' = trace w
                  ++ flat_map (rate_limited_attempt prompt filename max_retries)
                              attempts.
Proof.
  intros Hrl. revert w. induction attempts as [|attempt rest IH]; intros w.
  - exists w. cbn. now rewrite app_nil_r.
  - cbn [retry_loop flat_map]. unfold try_except, generate.
    destruct (Hrl (gemini w) prompt) as (e & c' & -> & ->).
    unfold bind, log, sleep.
    match goal with
    | |- context [retry_loop rest _ _ _ ?w1] =>
        destruct (IH w1) as (w' & -> & Hfs & Htr)
    end.
    exists w'. split; [reflexivity|]. split; [exact Hfs|].
    rewrite Htr. cbn. rewrite <- !app_assoc. reflexivity.
Qed.

Lemma rate_limited_attempts_calls (prompt filename : str) (max_retries : nat)
      (attempts : list nat) :
  calls (flat_map (rate_limited_attempt prompt filename max_retries) attempts)
  = length attempts.
Proof.
  induction attempts as [|a l IH]; [reflexivity|].
  cbn [flat_map]. rewrite calls_app, IH. reflexivity.
Qed.

Lemma rate_limited_attempts_no_write (prompt filename : str) (max_retries : nat)
      (attempts : list nat) :
  forallb (fun e => negb (is_write e))
          (flat_map (rate_limited_attempt prompt filename max_retries) attempts)
  = true.
Proof.
  induction attempts as [|a l IH]; [reflexivity|].
  cbn [flat_map]. rewrite forallb_app, IH. reflexivity.
Qed.

(** The retry loop, whatever the client does: it returns, and leaves
    the file system alone. *)
Lemma retry_loop_frame (attempts : list nat) (prompt filename : str)
      (max_retries : nat) (w : world) :
  exists r w',
    retry_loop attempts prompt filename max_retries w = (Ok r, w')
    /\ fs w' = fs w.
Proof.
  revert w. induction attempts as [|attempt rest IH]; intros w.
  - exists (Some []), w. auto.
  - cbn [retry_loop]. unfold try_except, generate.
    destruct (generate_content (gemini w) prompt) as [[r|e] c].
    + eexists _, _. split; reflexivity.
    + destruct (rate_limited e); unfold bind, log, sleep.
      * match goal with
        | |- context [retry_loop rest _ _ _ ?w1] =>
            destruct (IH w1) as (r & w' & -> & Hfs)
        end.
        exists r, w'. auto.
      * destruct (attempt =? max_retries - 1).
        -- eexists _, _. split; reflexivity.
        -- match goal with
           | |- context [retry_loop rest _ _ _ ?w1] =>
               destruct (IH w1) as (r & w' & -> & Hfs)
           end.
           exists r, w'. auto.
Qed.

(** The part of [process_file] up to the emptiness test, for a job that
    is not skipped and whose input can be read. *)
Lemma process_file_started (file_path output_dir : str) (rules : list rule)
      (content : str) (w : world) :
  fs w !! output_path file_path output_dir = None ->
  fs w !! file_path = Some (Ok content) ->
  let filename := Os.basename file_path in
  let text := job_text file_path content in
  let w0 := World (fs w) (gemini w) (trace w ++ job_prologue file_path output_dir) in
  process_file file_path output_dir rules w
  = try_except
      (if negb (truthy (strip text))
       then log WARNING (MsgEmptyFile filename)
       else
         let meta := extract_metadata_from_filename filename in
         bind (process_with_gemini text filename (fst meta)
                                   current_date_str (snd meta) 3)
              (fun optimized_text =>
                 if falsy optimized_text
                 then log ERROR (MsgGenerationFailed filename)
                 else
                   bind (enforce_terminology (text_of optimized_text) rules)
                        (fun final_text =>
                           write_file (output_path file_path output_dir)
                                      (final_text ++ separator ++ text))))
      (fun e => log ERROR (MsgFileError filename e)) w0.
Proof.
  intros Hout Hin filename text w0.
  unfold process_file. unfold bind at 1. unfold path_exists.
  rewrite bool_decide_eq_false_2
    by (rewrite Hout; intros [x Hx]; discriminate).
  unfold bind at 1. unfold log at 1.
  unfold try_except. unfold bind at 1. unfold read_file.
  cbn [fs record]. rewrite Hin.
  subst text w0. unfold job_text, job_prologue. fold filename.
  destruct (endswith (lower filename) (py ".srt")).
  - unfold bind at 1. unfold bind at 1. unfold log at 1. unfold ret.
    unfold record. cbn [fs gemini trace]. rewrite <- !app_assoc. reflexivity.
  - unfold bind at 1. unfold ret.
    unfold record. cbn [fs gemini trace]. rewrite <- !app_assoc, app_nil_r.
    reflexivity.
Qed.

(** The output path of a plain name [stem.ext] in a directory. *)
Lemma output_path_plain (dir output_dir stem ext : str) :
  plain_stem stem = true -> plain_ext ext = true ->
  output_path (Os.join dir (stem ++ "."%char :: ext)) output_dir
  = Os.join output_dir (stem ++ py "_rag.txt").
Proof.
  intros Hs He. unfold output_path.
  rewrite basename_join by now apply plain_name_no_slash.
  now rewrite splitext_plain.
Qed.

(** A job always returns, and changes the file system at its output
    path at most. *)
Lemma process_file_frame (file_path output_dir : str) (rules : list rule) (w : world) :
  exists w1,
    process_file file_path output_dir rules w = (Ok tt, w1)
    /\ (fs w1 = fs w
        \/ exists data,
             fs w1 = <[output_path file_path output_dir := Ok data]> (fs w)).
Proof.
  destruct (fs w !! output_path file_path output_dir) as [x|] eqn:Hout.
  { rewrite process_file_skip by (rewrite Hout; eauto).
    eexists. split; [reflexivity|]. now left. }
  destruct (fs w !! file_path) as [[content|e]|] eqn:Hin.
  - rewrite (process_file_started _ _ rules content w Hout Hin).
    cbv zeta. unfold try_except.
    destruct (negb (truthy (strip (job_text file_path content)))).
    { eexists. split; [reflexivity|]. now left. }
    unfold bind at 1. unfold process_with_gemini.
    match goal with
    | |- context [retry_loop ?a ?p ?f ?m ?w0] =>
        destruct (retry_loop_frame a p f m w0) as (r & w1 & -> & Hfs1)
    end.
    cbn [fs] in Hfs1.
    destruct (falsy r).
    { eexists. split; [reflexivity|]. left. exact Hfs1. }
    unfold bind.
    destruct (enforce_terminology_ok (text_of r) rules w1)
      as (t & w2 & -> & Hfs2 & _).
    unfold write_file.
    destruct (can_write (output_path file_path output_dir)).
    + eexists. split; [reflexivity|]. right. cbn [fs].
      eexists. rewrite Hfs2, Hfs1. reflexivity.
    + eexists. split; [reflexivity|]. left. cbn [fs log record].
      congruence.
  - unfold process_file. unfold bind at 1. unfold path_exists.
    rewrite bool_decide_eq_false_2
      by (rewrite Hout; intros [x Hx]; discriminate).
    unfold bind at 1. unfold log at 1. unfold try_except.
    unfold bind at 1. unfold read_file. cbn [fs record]. rewrite Hin.
    eexists. split; [reflexivity|]. now left.
  - unfold process_file. unfold bind at 1. unfold path_exists.
    rewrite bool_decide_eq_false_2
      by (rewrite Hout; intros [x Hx]; discriminate).
    unfold bind at 1. unfold log at 1. unfold try_except.
    unfold bind at 1. unfold read_file. cbn [fs record]. rewrite Hin.
    eexists. split; [reflexivity|]. now left.
Qed.

End PipelineFacts.

(** * Lemmas for the rest of the program *)

(** ** Trimming *)

Section Trimming.

Local Arguments Ascii.eqb : simpl never.

Lemma lstrip_spaces (ws x : str) :
  forallb isspace ws = true -> lstrip (ws ++ x) = lstrip x.
Proof.
  induction ws as [|c ws IH]; intros Hws; [reflexivity|].
  cbn [forallb] in Hws. apply andb_prop in Hws as [Hc Hws].
  cbn [app lstrip]. rewrite Hc. now apply IH.
Qed.

Lemma lstrip_split (s : str) :
  exists ws, forallb isspace ws = true /\ s = ws ++ lstrip s.
Proof.
  induction s as [|c s (ws & Hws & IH)].
  - now exists [].
  - cbn [lstrip]. destruct (isspace c) eqn:Hc.
    + exists (c :: ws). cbn [forallb app]. rewrite Hc, Hws. split; [reflexivity|].
      now rewrite <- IH.
    + now exists [].
Qed.

Lemma lstrip_head (s : str) (c : ascii) (r : str) :
  lstrip s = c :: r -> isspace c = false.
Proof.
  induction s as [|x s IH]; cbn [lstrip]; [discriminate|].
  destruct (isspace x) eqn:Hx; [exact IH|].
  intros H. injection H as <- _. exact Hx.
Qed.

Lemma forallb_rev (f : ascii -> bool) (l : str) :
  forallb f (rev l) = forallb f l.
Proof.
  induction l as [|c l IH]; [reflexivity|].
  cbn [rev forallb]. rewrite forallb_app, IH. cbn [forallb].
  rewrite andb_true_r. apply andb_comm.
Qed.

Lemma rstrip_spaces (x ws : str) :
  forallb isspace ws = true -> rstrip (x ++ ws) = rstrip x.
Proof.
  intros Hws. unfold rstrip. rewrite rev_app_distr.
  rewrite lstrip_spaces; [reflexivity|]. now rewrite forallb_rev.
Qed.

Lemma rstrip_snoc (s : str) (c : ascii) :
  isspace c = false -> rstrip (s ++ [c]) = s ++ [c].
Proof.
  intros Hc. unfold rstrip. rewrite rev_app_distr. cbn [rev app lstrip].
  rewrite Hc. cbn [rev]. now rewrite rev_involutive.
Qed.

Lemma rstrip_last (s : str) (c : ascii) :
  last (rstrip s) = Some c -> isspace c = false.
Proof.
  unfold rstrip. destruct (lstrip (rev s)) as [|x r] eqn:Hl; [discriminate|].
  cbn [rev]. rewrite last_snoc. intros H. injection H as <-.
  exact (lstrip_head _ _ _ Hl).
Qed.

(** A string without whitespace at its ends is what [strip] leaves. *)
Lemma strip_trimmed (s : str) : trimmed s = true -> strip s = s.
Proof.
  unfold trimmed, strip. destruct s as [|c t]; [reflexivity|].
  intros [Hc Hl]%andb_prop. apply negb_true_iff in Hc.
  destruct (last (c :: t)) as [d|] eqn:Hd.
  - apply negb_true_iff in Hl. apply last_Some in Hd as [l' Hd].
    rewrite Hd, (rstrip_snoc l' d Hl), <- Hd. cbn [lstrip]. now rewrite Hc.
  - apply last_None in Hd. discriminate Hd.
Qed.

Lemma strip_is_trimmed (s : str) : trimmed (strip s) = true.
Proof.
  unfold strip. remember (rstrip s) as y eqn:Ey.
  destruct (lstrip y) as [|c r] eqn:Hl; [reflexivity|].
  unfold trimmed. rewrite (lstrip_head _ _ _ Hl). cbn [negb andb].
  destruct (lstrip_split y) as (ws & _ & Hy). rewrite Hl in Hy.
  assert (Hlast : last (c :: r) = last (ws ++ c :: r)).
  { rewrite last_app.
    destruct (last (c :: r)) eqn:Hd; [reflexivity|].
    apply last_None in Hd. discriminate Hd. }
  rewrite Hlast, <- Hy. destruct (last y) as [d|] eqn:Hd; [|reflexivity].
  subst y. now rewrite (rstrip_last _ _ Hd).
Qed.

Lemma strip_idempotent (s : str) : strip (strip s) = strip s.
Proof. apply strip_trimmed, strip_is_trimmed. Qed.

Lemma strip_spaces_around (ws1 s ws2 : str) :
  forallb isspace ws1 = true -> forallb isspace ws2 = true ->
  truthy s = true -> trimmed s = true ->
  strip (ws1 ++ s ++ ws2) = s.
Proof.
  intros H1 H2 Hne Ht. unfold strip.
  rewrite app_assoc, (rstrip_spaces _ ws2 H2).
  destruct s as [|c t]; [discriminate Hne|].
  unfold trimmed in Ht. apply andb_prop in Ht as [Hc Hl].
  apply negb_true_iff in Hc.
  destruct (last (c :: t)) as [d|] eqn:Hd.
  - apply negb_true_iff in Hl. apply last_Some in Hd as [l' Hd].
    rewrite Hd, app_assoc, (rstrip_snoc _ d Hl), <- app_assoc, <- Hd.
    rewrite (lstrip_spaces ws1 _ H1). cbn [lstrip]. now rewrite Hc.
  - apply last_None in Hd. discriminate Hd.
Qed.


End Trimming.

(** ** Prefixes and occurrences *)

Section Occurrences.

Local Arguments Ascii.eqb : simpl never.

Lemma startswith_app (p r : str) : startswith (p ++ r) p = true.
Proof.
  induction p as [|c p IH]; [reflexivity|].
  cbn [app startswith]. now rewrite Ascii.eqb_refl.
Qed.

Lemma startswith_refl (s : str) : startswith s s = true.
Proof. rewrite <- (app_nil_r s) at 1. apply startswith_app. Qed.

Lemma startswith_split (s p : str) :
  startswith s p = true -> s = p ++ drop (length p) s.
Proof.
  revert s. induction p as [|c p IH]; intros s H; [reflexivity|].
  destruct s as [|x s]; [discriminate H|].
  cbn [startswith] in H. apply andb_prop in H as [Hc H].
  apply Ascii.eqb_eq in Hc. subst x. cbn [app length drop].
  f_equal. now apply IH.
Qed.


Lemma contains_here (s p : str) : startswith s p = true -> contains s p = true.
Proof. intros H. destruct s; cbn [contains]; now rewrite H. Qed.

Lemma contains_later (a s p : str) : contains s p = true -> contains (a ++ s) p = true.
Proof.
  intros H. induction a as [|c a IH]; [exact H|].
  cbn [app contains]. rewrite IH. apply orb_true_r.
Qed.

Lemma contains_middle (a b c : str) : contains (a ++ b ++ c) b = true.
Proof. apply contains_later, contains_here, startswith_app. Qed.

Lemma contains_tail (c : ascii) (t p : str) :
  contains (c :: t) p = false -> contains t p = false.
Proof. cbn [contains]. now intros [_ H]%orb_false_elim. Qed.

Lemma endswith_split (s p : str) : endswith s p = true -> exists a, s = a ++ p.
Proof.
  unfold endswith. intros H. apply startswith_split in H.
  exists (rev (drop (length (rev p)) (rev s))).
  rewrite <- (rev_involutive s), H at 1. rewrite rev_app_distr.
  now rewrite rev_involutive.
Qed.

(** [str.replace] leaves a text in which [old] does not occur as it is. *)
Lemma replace_from_missing (old new s : str) :
  contains s old = false -> replace_from old new s 0 = s.
Proof.
  induction s as [|c s IH]; intros H; [reflexivity|].
  cbn [contains] in H. apply orb_false_elim in H as [Hsw H].
  cbn [replace_from]. rewrite Hsw. f_equal. now apply IH.
Qed.

Lemma replace_missing (s old new : str) :
  truthy old = true -> contains s old = false -> replace s old new = s.
Proof.
  intros Hne H. unfold replace. destruct old; [discriminate Hne|].
  now apply replace_from_missing.
Qed.

End Occurrences.

(** ** Deduplication of rollup subtitles *)

Section Rollup.

Local Arguments Ascii.eqb : simpl never.

Lemma emitted_same (b : str) : emitted b b = [].
Proof.
  unfold emitted. rewrite startswith_refl, drop_all. reflexivity.
Qed.

(** The pass around one block. *)
Lemma dedup_lines_at (pre : list str) (b : str) (post : list str) :
  dedup_lines (pre ++ b :: post)
  = dedup_lines (pre ++ [b]) ++ tail (dedup_lines (b :: post)).
Proof.
  rewrite (dedup_lines_chain b post). cbn [tail].
  destruct pre as [|b0 pre]; cbn [app].
  - rewrite !dedup_lines_chain. reflexivity.
  - rewrite !dedup_lines_chain, (chain_app b0 pre b post). reflexivity.
Qed.

Lemma is_line_facts (l : str) :
  is_line l = true -> truthy l = true /\ trimmed l = true /\ ~ In NL l.
Proof.
  unfold is_line. intros [[H1 H2]%andb_prop H3]%andb_prop.
  apply negb_true_iff in H3. repeat split; auto.
  intros Hin. assert (Hex : existsb (Ascii.eqb NL) l = true).
  { apply existsb_exists. exists NL. split; [exact Hin|apply Ascii.eqb_refl]. }
  congruence.
Qed.

Lemma split_one_line (a : str) : ~ In NL a -> split NL a = [a].
Proof.
  induction a as [|c a IH]; intros Hn; [reflexivity|].
  cbn [split]. destruct (Ascii.eqb_spec c NL) as [->|_].
  - exfalso. apply Hn. now left.
  - rewrite IH; [reflexivity|]. intros H. apply Hn. now right.
Qed.

Lemma split_first_line (a b : str) :
  ~ In NL a -> split NL (a ++ NL :: b) = a :: split NL b.
Proof.
  induction a as [|c a IH]; intros Hn.
  - cbn [app split]. now rewrite Ascii.eqb_refl.
  - cbn [app split]. destruct (Ascii.eqb_spec c NL) as [->|_].
    + exfalso. apply Hn. now left.
    + rewrite IH; [reflexivity|]. intros H. apply Hn. now right.
Qed.

Lemma nonempty_lines_two (a b : str) :
  is_line a = true -> is_line b = true ->
  nonempty_lines (a ++ NL :: b) = [a; b].
Proof.
  intros (Ha1 & Ha2 & Ha3)%is_line_facts (Hb1 & Hb2 & Hb3)%is_line_facts.
  unfold nonempty_lines.
  rewrite (split_first_line a b Ha3), (split_one_line b Hb3).
  cbn [map]. rewrite (strip_trimmed a Ha2), (strip_trimmed b Hb2).
  destruct a; [discriminate Ha1|]. destruct b; [discriminate Hb1|]. reflexivity.
Qed.

Lemma emitted_first_pair (a b : str) :
  is_line a = true -> is_line b = true -> emitted a (a ++ NL :: b) = [b].
Proof.
  intros _ (Hb1 & Hb2 & _)%is_line_facts. unfold emitted.
  rewrite startswith_app, drop_app_length.
  assert (Hs : strip (NL :: b) = b).
  { pose proof (strip_spaces_around [NL] b [] eq_refl eq_refl Hb1 Hb2) as Hs.
    now rewrite app_nil_r in Hs. }
  rewrite Hs. destruct b; [discriminate Hb1|]. reflexivity.
Qed.

Lemma startswith_first_line (a b rest1 rest2 : str) :
  ~ In NL a -> ~ In NL b ->
  startswith (b ++ NL :: rest1) (a ++ NL :: rest2) = true -> a = b.
Proof.
  revert b. induction a as [|x a IH]; intros b Ha Hb H.
  - destruct b as [|y b]; [reflexivity|].
    cbn [app startswith] in H. apply andb_prop in H as [H _].
    apply Ascii.eqb_eq in H. subst y. exfalso. apply Hb. now left.
  - destruct b as [|y b]; cbn [app startswith] in H;
      apply andb_prop in H as [Hc H]; apply Ascii.eqb_eq in Hc; subst.
    + exfalso. apply Ha. now left.
    + f_equal. apply IH; [| |exact H].
      * intros Hin. apply Ha. now right.
      * intros Hin. apply Hb. now right.
Qed.

Lemma emitted_next_pair (a b c : str) :
  is_line a = true -> is_line b = true -> is_line c = true -> a <> b ->
  emitted (a ++ NL :: b) (b ++ NL :: c) = [c].
Proof.
  intros Ha Hb Hc Hne. unfold emitted.
  destruct (startswith (b ++ NL :: c) (a ++ NL :: b)) eqn:Hsw.
  - exfalso. apply Hne.
    apply (startswith_first_line a b c b); [| |exact Hsw].
    + now apply is_line_facts in Ha.
    + now apply is_line_facts in Hb.
  - rewrite (nonempty_lines_two a b Ha Hb), (nonempty_lines_two b c Hb Hc).
    unfold start_idx. cbn [truthy andb head].
    change (last [a; b]) with (Some b).
    rewrite bool_decide_eq_true_2 by reflexivity. reflexivity.
Qed.

Lemma chain_rollup (a b : str) (rest : list str) :
  forallb is_line (a :: b :: rest) = true ->
  no_repeat (a :: b :: rest) = true ->
  chain (a ++ NL :: b) (rollup_from b rest) = rest.
Proof.
  revert a b. induction rest as [|c rest IH]; intros a b Hl Hr; [reflexivity|].
  cbn [forallb] in Hl.
  apply andb_prop in Hl as [Ha Hl]. pose proof Hl as Hl'.
  apply andb_prop in Hl as [Hb Hl]. apply andb_prop in Hl as [Hc _].
  cbn [no_repeat] in Hr. apply andb_prop in Hr as [Hab Hr].
  apply negb_true_iff in Hab. unfold str_eqb in Hab.
  apply bool_decide_eq_false in Hab.
  cbn [rollup_from chain].
  rewrite (emitted_next_pair a b c Ha Hb Hc Hab). cbn [app]. f_equal.
  apply IH; [exact Hl'|exact Hr].
Qed.

End Rollup.

(** ** Files without cues, and line ends *)

Section NoCue.

Local Arguments Ascii.eqb : simpl never.

Lemma skip_digits_split (s : str) : exists d, s = d ++ skip_digits s.
Proof.
  induction s as [|c s (d & IH)]; [now exists []|].
  cbn [skip_digits]. destruct (isdigit c).
  - exists (c :: d). cbn [app]. now rewrite <- IH.
  - now exists [].
Qed.

Lemma match_timestamp_split (s r : str) :
  match_timestamp s = Some r -> exists ts, s = ts ++ r.
Proof.
  intros H. do 12 (destruct s as [|? s]; [discriminate H|]).
  cbn [match_timestamp] in H. destruct (_ && _); [|discriminate H].
  injection H as <-.
  eexists [_; _; _; _; _; _; _; _; _; _; _; _]. reflexivity.
Qed.

Lemma match_lit_split (lit s r : str) :
  match_lit lit s = Some r -> s = lit ++ r.
Proof.
  unfold match_lit. destruct (startswith s lit) eqn:H; [|discriminate].
  intros E. injection E as <-. now apply startswith_split.
Qed.

(** Where a cue header matches, an arrow follows. *)
Lemma match_header_arrow (s r : str) :
  match_header s = Some r -> contains s (py " --> ") = true.
Proof.
  unfold match_header. destruct s as [|c s]; [discriminate|].
  destruct (isdigit c); [|discriminate].
  destruct (skip_digits_split (c :: s)) as (d & Hd).
  destruct (match_lit [NL] (skip_digits (c :: s))) as [r1|] eqn:H1;
    [|discriminate].
  cbn [mbind option_bind].
  destruct (match_timestamp r1) as [r2|] eqn:H2; [|discriminate].
  cbn [mbind option_bind].
  destruct (match_lit (py " --> ") r2) as [r3|] eqn:H3; [|discriminate].
  intros _.
  apply match_lit_split in H1, H3. apply match_timestamp_split in H2 as (ts & H2).
  rewrite Hd, H1, H2, H3.
  apply contains_later. change ([NL] ++ ts ++ py " --> " ++ r3)
    with (([NL] ++ ts) ++ py " --> " ++ r3) at 1.
  cbn [app]. apply (contains_later (NL :: ts)).
  apply contains_here, startswith_app.
Qed.

Lemma finditer_no_arrow (s : str) (skip : nat) :
  contains s (py " --> ") = false -> finditer s skip = [].
Proof.
  revert skip. induction s as [|c s IH]; intros skip H; [reflexivity|].
  pose proof (contains_tail _ _ _ H) as Ht.
  cbn [finditer]. destruct skip as [|k]; [|now apply IH].
  unfold match_here.
  destruct (match_header (c :: s)) as [r|] eqn:Hh; [|now apply IH].
  apply match_header_arrow in Hh. congruence.
Qed.

(** The text after [content.replace('\r\n', '\n')]. *)
Lemma unix_cons (c : ascii) (t : str) :
  replace_from [CR; NL] [NL] (c :: t) 0
  = if startswith (c :: t) [CR; NL]
    then NL :: replace_from [CR; NL] [NL] (drop 1 t) 0
    else c :: replace_from [CR; NL] [NL] t 0.
Proof.
  cbn [replace_from]. destruct (startswith (c :: t) [CR; NL]) eqn:H; [|reflexivity].
  cbn [app length Nat.sub]. f_equal.
  destruct t as [|d t]; [|reflexivity].
  cbn [startswith] in H. rewrite andb_false_r in H. discriminate H.
Qed.

Lemma startswith_unix (p s : str) :
  ~ In NL p ->
  startswith (replace_from [CR; NL] [NL] s 0) p = true -> startswith s p = true.
Proof.
  revert s. induction p as [|a p IH]; intros s Hn H; [reflexivity|].
  destruct s as [|c t]; [discriminate H|].
  rewrite unix_cons in H.
  destruct (startswith (c :: t) [CR; NL]) eqn:Hc.
  - cbn [startswith] in H. apply andb_prop in H as [H _].
    apply Ascii.eqb_eq in H. subst a. exfalso. apply Hn. now left.
  - cbn [startswith] in H |- *. apply andb_prop in H as [-> H].
    cbn [andb]. apply IH; [|exact H]. intros Hin. apply Hn. now right.
Qed.

Lemma contains_unix_bounded (n : nat) (p s : str) :
  length s <= n -> truthy p = true -> ~ In NL p ->
  contains (replace_from [CR; NL] [NL] s 0) p = true -> contains s p = true.
Proof.
  revert s. induction n as [|n IH]; intros s Hlen Hp Hn H.
  - destruct s; [|cbn [length] in Hlen; lia].
    destruct p; [discriminate Hp|]. discriminate H.
  - destruct s as [|c t].
    { destruct p; [discriminate Hp|]. discriminate H. }
    cbn [length] in Hlen.
    pose proof (startswith_unix p (c :: t) Hn) as Hsw.
    rewrite unix_cons in H, Hsw.
    destruct (startswith (c :: t) [CR; NL]) eqn:Hc.
    + cbn [contains] in H. apply orb_prop in H as [H|H].
      * apply contains_here. now apply Hsw.
      * apply (contains_later [c]). cbn [app].
        destruct t as [|d t'].
        { cbn [startswith] in Hc. rewrite andb_false_r in Hc. discriminate Hc. }
        cbn [drop] in H.
        apply (contains_later [d]). apply IH; auto.
        cbn [length] in Hlen. lia.
    + cbn [contains] in H. apply orb_prop in H as [H|H].
      * apply contains_here. now apply Hsw.
      * apply (contains_later [c]). apply IH; auto. lia.
Qed.

Lemma contains_unix (p s : str) :
  truthy p = true -> ~ In NL p ->
  contains (replace_from [CR; NL] [NL] s 0) p = true -> contains s p = true.
Proof. apply (contains_unix_bounded (length s)). lia. Qed.

(** Windows line ends, put in and taken out again. *)
Lemma crlf_round_trip (s : str) :
  ~ In CR s -> replace (to_crlf s) [CR; NL] [NL] = s.
Proof.
  unfold to_crlf, replace. induction s as [|c s IH]; intros Hn; [reflexivity|].
  assert (Hs : ~ In CR s) by (intros H; apply Hn; now right).
  cbn [replace_from startswith].
  destruct (Ascii.eqb_spec NL c) as [<-|Hc].
  - cbn [andb app length Nat.sub]. rewrite unix_cons.
    cbn [startswith]. rewrite !Ascii.eqb_refl. cbn [andb drop].
    f_equal. now apply IH.
  - cbn [andb]. rewrite unix_cons. cbn [startswith].
    destruct (Ascii.eqb_spec CR c) as [<-|_].
    + exfalso. apply Hn. now left.
    + cbn [andb]. f_equal. now apply IH.
Qed.

End NoCue.

(** ** The rules file *)

Section RulesFile.

Local Arguments Ascii.eqb : simpl never.





Lemma split_arrow_before (s a b : str) :
  Rules.split_arrow s = Some (a, b) -> contains a (py "->") = false.
Proof.
  revert a b. induction s as [|c s IH]; intros a b H; [discriminate H|].
  cbn [Rules.split_arrow] in H.
  destruct (startswith (c :: s) (py "->")) eqn:Hsw.
  - injection H as <- _. reflexivity.
  - destruct (Rules.split_arrow s) as [[a' b']|] eqn:Hs; [|discriminate H].
    injection H as <- <-. specialize (IH a' b' eq_refl).
    cbn [contains]. rewrite IH, orb_false_r.
    destruct a' as [|d a'].
    + destruct s as [|e s]; [discriminate Hs|].
      cbn [Rules.split_arrow] in Hs.
      destruct (startswith (e :: s) (py "->")) eqn:He.
      * cbn [py list_ascii_of_string startswith] in Hsw, He |- *.
        apply andb_prop in He as [He _]. apply Ascii.eqb_eq in He. subst e.
        change (Ascii.eqb ">" "-") with false in Hsw.
        now rewrite andb_false_r.
      * destruct (Rules.split_arrow s) as [[? ?]|]; discriminate Hs.
    + destruct s as [|e s]; [discriminate Hs|].
      cbn [Rules.split_arrow] in Hs.
      destruct (startswith (e :: s) (py "->")) eqn:He; [discriminate Hs|].
      destruct (Rules.split_arrow s) as [[? ?]|]; [|discriminate Hs].
      injection Hs as -> _ _.
      cbn [py list_ascii_of_string startswith] in Hsw |- *. exact Hsw.
Qed.




End RulesFile.

(** ** What [strip] keeps is part of the text *)

Section Substrings.

Local Arguments Ascii.eqb : simpl never.

Lemma startswith_longer (a b p : str) :
  startswith a p = true -> startswith (a ++ b) p = true.
Proof.
  revert a. induction p as [|x p IH]; intros a H; [reflexivity|].
  destruct a as [|y a]; [discriminate H|].
  cbn [app startswith] in H |- *. apply andb_prop in H as [-> H].
  cbn [andb]. now apply IH.
Qed.

Lemma contains_longer (a b p : str) :
  contains a p = true -> contains (a ++ b) p = true.
Proof.
  induction a as [|c a IH]; intros H.
  - destruct p; [|discriminate H]. destruct b; reflexivity.
  - cbn [contains] in H. cbn [app contains].
    apply orb_prop in H as [H|H].
    + pose proof (startswith_longer (c :: a) b p H) as E. cbn [app] in E.
      now rewrite E.
    + rewrite (IH H). apply orb_true_r.
Qed.

Lemma rstrip_split (s : str) : exists ws, s = rstrip s ++ ws.
Proof.
  unfold rstrip. destruct (lstrip_split (rev s)) as (ws & _ & H).
  exists (rev ws). rewrite <- rev_app_distr, <- H. now rewrite rev_involutive.
Qed.

Lemma contains_strip (s p : str) :
  contains (strip s) p = true -> contains s p = true.
Proof.
  unfold strip. intros H.
  destruct (lstrip_split (rstrip s)) as (ws1 & _ & H1).
  destruct (rstrip_split s) as (ws2 & H2).
  rewrite H2, H1. apply contains_longer, contains_later. exact H.
Qed.

End Substrings.

(** ** More on paths *)

Section MorePaths.

Local Arguments Ascii.eqb : simpl never.

Lemma rfind_split (c : ascii) (s : str) (i : nat) :
  Os.rfind c s = Some i ->
  exists a b, s = a ++ c :: b /\ length a = i /\ ~ In c b.
Proof.
  revert i. induction s as [|x s IH]; intros i H; [discriminate H|].
  cbn [Os.rfind] in H. destruct (Os.rfind c s) as [j|] eqn:Hr.
  - injection H as <-. destruct (IH j eq_refl) as (a & b & -> & <- & Hn).
    now exists (x :: a), b.
  - destruct (Ascii.eqb_spec x c) as [->|_]; [|discriminate H].
    injection H as <-. exists [], s. repeat split.
    intros Hin. clear IH. induction s as [|y s IHs]; [destruct Hin|].
    cbn [Os.rfind] in Hr. destruct (Os.rfind c s) eqn:Hs; [discriminate Hr|].
    destruct (Ascii.eqb_spec y c) as [->|Hne]; [discriminate Hr|].
    destruct Hin as [E|Hin]; [congruence|]. now apply IHs.
Qed.

Lemma basename_no_slash (p : str) : ~ In "/"%char (Os.basename p).
Proof.
  unfold Os.basename. destruct (Os.rfind "/" p) as [i|] eqn:Hr.
  - destruct (rfind_split _ _ _ Hr) as (a & b & -> & <- & Hn).
    now rewrite drop_past.
  - intros Hin. clear -Hr Hin. induction p as [|y s IHs]; [destruct Hin|].
    cbn [Os.rfind] in Hr. destruct (Os.rfind "/" s) eqn:Hs; [discriminate Hr|].
    destruct (Ascii.eqb_spec y "/"%char) as [->|Hne]; [discriminate Hr|].
    destruct Hin as [E|Hin]; [congruence|]. now apply IHs.
Qed.

(** [splitext] cuts its argument in two, and the extension is empty or
    starts with a dot. *)
Lemma splitext_parts (p : str) :
  fst (Os.splitext p) ++ snd (Os.splitext p) = p
  /\ (snd (Os.splitext p) = []
      \/ exists e, snd (Os.splitext p) = "."%char :: e).
Proof.
  unfold Os.splitext. destruct (Os.rfind "." p) as [d|] eqn:Hr.
  - destruct (_ && _).
    + cbn [fst snd]. split; [apply take_drop|]. right.
      destruct (rfind_split _ _ _ Hr) as (a & b & -> & <- & _).
      exists b. now rewrite drop_app_length.
    + cbn [fst snd]. split; [apply app_nil_r|now left].
  - cbn [fst snd]. split; [apply app_nil_r|now left].
Qed.

Lemma output_name_no_slash (file_path : str) :
  ~ In "/"%char (fst (Os.splitext (Os.basename file_path)) ++ py "_rag.txt").
Proof.
  destruct (splitext_parts (Os.basename file_path)) as [Hp _].
  pose proof (basename_no_slash file_path) as Hb.
  intros [Hin|Hin]%in_app_or.
  - apply Hb. rewrite <- Hp. apply in_or_app. now left.
  - cbn in Hin. repeat (destruct Hin as [Hin|Hin]; [discriminate Hin|]).
    exact Hin.
Qed.

Lemma basename_output_path (file_path output_dir : str) :
  Os.basename (output_path file_path output_dir)
  = fst (Os.splitext (Os.basename file_path)) ++ py "_rag.txt".
Proof. unfold output_path. apply basename_join, output_name_no_slash. Qed.

End MorePaths.

(** ** More on the pipeline *)

Section PipelineMore.

Context `{Ext : Externals}.

Lemma slept_app (t1 t2 : list event) : slept (t1 ++ t2) = slept t1 + slept t2.
Proof. unfold slept. now rewrite map_app, list_sum_app. Qed.

Lemma calls_cons (e : event) (t : list event) :
  calls (e :: t) = (if is_generate e then 1 else 0) + calls t.
Proof.
  unfold calls. rewrite filter_cons.
  destruct (is_generate e); case_decide; try congruence; reflexivity.
Qed.

Ltac count_calls :=
  rewrite ?calls_app, ?calls_cons; cbn [is_generate length]; change (calls []) with 0.

(** The retry loop, whatever the client does: it returns, makes no more
    calls than there are attempts, and touches no file. *)
Lemma retry_loop_bounded (attempts : list nat) (prompt filename : str)
      (max_retries : nat) (w : world) :
  exists r w' new,
    retry_loop attempts prompt filename max_retries w = (Ok r, w')
    /\ fs w' = fs w
    /\ trace w' = trace w ++ new
    /\ calls new <= length attempts
    /\ forallb (fun e => negb (is_write e)) new = true.
Proof.
  revert w. induction attempts as [|attempt rest IH]; intros w.
  - exists (Some []), w, []. cbn. rewrite app_nil_r. auto.
  - cbn [retry_loop]. unfold try_except, generate.
    destruct (generate_content (gemini w) prompt) as [[r|e] c].
    + eexists r, _, [_]. split; [reflexivity|]. cbn [fs trace length].
      split; [reflexivity|]. split; [reflexivity|].
      split; [count_calls; lia|reflexivity].
    + destruct (rate_limited e); unfold bind, log, sleep, record;
        cbn [fs gemini trace].
      * match goal with
        | |- context [retry_loop rest _ _ _ ?w1] =>
            destruct (IH w1) as (r & w' & new & -> & Hfs & Htr & Hc & Hw)
        end.
        cbn [fs trace] in Hfs, Htr.
        eexists r, w', ([_; _; _] ++ new). split; [reflexivity|].
        split; [exact Hfs|]. split; [rewrite Htr; now rewrite <- !app_assoc|].
        split; [count_calls; lia|].
        rewrite forallb_app, Hw. reflexivity.
      * destruct (attempt =? max_retries - 1).
        -- eexists _, _, [_; _]. split; [reflexivity|]. cbn [fs trace].
           split; [reflexivity|]. split; [now rewrite <- !app_assoc|].
           split; [count_calls; lia|reflexivity].
        -- match goal with
           | |- context [retry_loop rest _ _ _ ?w1] =>
               destruct (IH w1) as (r & w' & new & -> & Hfs & Htr & Hc & Hw)
           end.
           cbn [fs trace] in Hfs, Htr.
           eexists r, w', ([_; _; _] ++ new). split; [reflexivity|].
           split; [exact Hfs|]. split; [rewrite Htr; now rewrite <- !app_assoc|].
           split; [count_calls; lia|].
           rewrite forallb_app, Hw. reflexivity.
Qed.

(** The retry loop against a client that always fails with another
    error: the attempts that are left are all made, with two seconds
    between them and none after the last. *)
Lemma retry_loop_other_errors (k m max_retries : nat) (prompt filename : str)
      (w : world) :
  always_other_error -> k + m = max_retries ->
  exists w' new,
    retry_loop (seq k m) prompt filename max_retries w = (Ok (Some []), w')
    /\ fs w' = fs w
    /\ trace w' = trace w ++ new
    /\ calls new = m
    /\ slept new = 2 * (m - 1)
    /\ forallb (fun e => negb (is_write e)) new = true.
Proof.
  intros Herr. revert k w. induction m as [|m IH]; intros k w Hk.
  - exists w, []. cbn [seq retry_loop]. unfold ret. rewrite app_nil_r.
    split; [reflexivity|]. split; [reflexivity|]. split; [reflexivity|].
    split; [reflexivity|]. split; reflexivity.
  - cbn [seq retry_loop]. unfold try_except, generate.
    destruct (Herr (gemini w) prompt) as (e & c' & -> & ->).
    unfold bind, log, sleep, record. cbn [fs gemini trace].
    destruct (Nat.eqb_spec k (max_retries - 1)) as [Hlast|Hmore].
    + assert (m = 0) by lia. subst m.
      eexists _, [_; _]. split; [reflexivity|]. cbn [fs trace].
      split; [reflexivity|]. split; [now rewrite <- !app_assoc|].
      split; [count_calls; lia|]. split; reflexivity.
    + match goal with
      | |- context [retry_loop (seq (S k) m) _ _ _ ?w1] =>
          destruct (IH (S k) w1) as (w' & new & -> & Hfs & Htr & Hc & Hs & Hw);
            [lia|]
      end.
      cbn [fs trace] in Hfs, Htr.
      eexists w', ([_; _; _] ++ new). split; [reflexivity|].
      split; [exact Hfs|]. split; [rewrite Htr; now rewrite <- !app_assoc|].
      split; [count_calls; lia|].
      split; [rewrite slept_app, Hs; unfold slept, list_sum; cbn [map fold_right]; lia|].
      rewrite forallb_app, Hw. reflexivity.
Qed.

Lemma slept_rate_limited (prompt filename : str) (max_retries n : nat) :
  2 * slept (flat_map (rate_limited_attempt prompt filename max_retries) (seq 0 n))
  = 5 * n * (n + 1).
Proof.
  induction n as [|n IH]; [reflexivity|].
  rewrite seq_S, flat_map_app, slept_app. cbn [flat_map Nat.add].
  rewrite app_nil_r. unfold rate_limited_attempt at 2. unfold slept at 2.
  cbn [map]. unfold list_sum at 1. cbn [fold_right]. nia.
Qed.

(** A job always returns; when it changes the file system, its output
    was not there, its input could be read and was not blank, and what it
    writes is the text it made, the separator and the cleaned input. *)
Lemma process_file_effect (file_path output_dir : str) (rules : list rule) (w : world) :
  exists w1,
    process_file file_path output_dir rules w = (Ok tt, w1)
    /\ (fs w1 = fs w
        \/ (fs w !! output_path file_path output_dir = None
            /\ exists content final,
                 fs w !! file_path = Some (Ok content)
                 /\ truthy (strip (job_text file_path content)) = true
                 /\ fs w1 = <[output_path file_path output_dir
                              := Ok (final ++ separator ++ job_text file_path content)]>
                            (fs w))).
Proof.
  destruct (fs w !! output_path file_path output_dir) as [x|] eqn:Hout.
  { rewrite process_file_skip by (rewrite Hout; eauto).
    eexists. split; [reflexivity|]. now left. }
  destruct (fs w !! file_path) as [[content|e]|] eqn:Hin.
  - rewrite (process_file_started _ _ rules content w Hout Hin).
    cbv zeta. unfold try_except.
    destruct (truthy (strip (job_text file_path content))) eqn:Htext; cbn [negb].
    2:{ eexists. split; [reflexivity|]. now left. }
    unfold bind at 1. unfold process_with_gemini.
    match goal with
    | |- context [retry_loop ?a ?p ?f ?m ?w0] =>
        destruct (retry_loop_frame a p f m w0) as (r & w1 & -> & Hfs1)
    end.
    cbn [fs] in Hfs1.
    destruct (falsy r).
    { eexists. split; [reflexivity|]. left. exact Hfs1. }
    unfold bind.
    destruct (enforce_terminology_ok (text_of r) rules w1)
      as (t & w2 & -> & Hfs2 & _).
    unfold write_file.
    destruct (can_write (output_path file_path output_dir)).
    + eexists. split; [reflexivity|]. right. split; [reflexivity|].
      exists content, t. cbn [fs]. rewrite Hfs2, Hfs1. auto.
    + eexists. split; [reflexivity|]. left. cbn [fs log record].
      congruence.
  - unfold process_file. unfold bind at 1. unfold path_exists.
    rewrite bool_decide_eq_false_2
      by (rewrite Hout; intros [x Hx]; discriminate).
    unfold bind at 1. unfold log at 1. unfold try_except.
    unfold bind at 1. unfold read_file. cbn [fs record]. rewrite Hin.
    eexists. split; [reflexivity|]. now left.
  - unfold process_file. unfold bind at 1. unfold path_exists.
    rewrite bool_decide_eq_false_2
      by (rewrite Hout; intros [x Hx]; discriminate).
    unfold bind at 1. unfold log at 1. unfold try_except.
    unfold bind at 1. unfold read_file. cbn [fs record]. rewrite Hin.
    eexists. split; [reflexivity|]. now left.
Qed.

(** The text of [enforce_terminology] does not depend on the world. *)
Lemma enforce_terminology_result (text : str) (rules : list rule) (w : world) :
  exists w',
    enforce_terminology text rules w = (Ok (rules_result text rules), w')
    /\ fs w' = fs w /\ gemini w' = gemini w
    /\ exists new, trace w' = trace w ++ new /\ forallb is_log new = true.
Proof.
  revert text w. induction rules as [|r rules IH]; intros text w.
  - exists w. split; [reflexivity|]. split; [reflexivity|]. split; [reflexivity|].
    exists []. now rewrite app_nil_r.
  - cbn [enforce_terminology]. unfold rules_result. cbn [fold_left].
    fold (rules_result
            (if is_regex r
             then match re_sub (original r) (replacement r) text with
                  | Ok text' => text'
                  | Raise _ => text
                  end
             else replace text (original r) (replacement r)) rules).
    unfold bind, apply_rule. destruct (is_regex r).
    + unfold try_except, lift.
      destruct (re_sub (original r) (replacement r) text) as [t|e].
      * apply IH.
      * unfold bind, log, ret.
        match goal with
        | |- context [enforce_terminology text rules ?w1] =>
            destruct (IH text w1) as (w' & -> & Hfs & Hg & new & Htr & Hq)
        end.
        exists w'. split; [reflexivity|]. split; [exact Hfs|]. split; [exact Hg|].
        exists (EvLog ERROR (MsgRegexError (original r) e) :: new).
        split; [|cbn [forallb is_log andb]; exact Hq].
        rewrite Htr. unfold record. cbn [trace]. now rewrite <- app_assoc.
    + unfold ret. apply IH.
Qed.

Lemma process_file_keeps (file_path output_dir : str) (rules : list rule) (w : world) :
  exists w1,
    process_file file_path output_dir rules w = (Ok tt, w1)
    /\ forall p, is_Some (fs w !! p) -> fs w1 !! p = fs w !! p.
Proof.
  destruct (process_file_effect file_path output_dir rules w)
    as (w1 & Hrun & [Hfs|(Hout & content & final & _ & _ & Hfs)]).
  - exists w1. split; [exact Hrun|]. intros p _. now rewrite Hfs.
  - exists w1. split; [exact Hrun|]. intros p Hp. rewrite Hfs.
    apply lookup_insert_ne. intros <-. rewrite Hout in Hp.
    destruct Hp as [x Hx]. discriminate Hx.
Qed.

End PipelineMore.

(** ** The date in a file name *)

Section Dates.

Local Arguments Ascii.eqb : simpl never.








End Dates.

(** * The claims *)

(** C1.  In the deduplication pass, whenever a block [curr] starts with the
    full text of its predecessor [prev], what the pass keeps for [curr] is
    exactly the remainder of [curr] after the [prev] prefix, trimmed, and
    nothing at all when that remainder is empty; the blocks before and
    after contribute what they contribute on their own.  In particular the
    blocks "Hello", "Hello world" give exactly "Hello world". *)
Theorem prefix_case_fragment :
  (forall (pre : list str) (prev curr : str) (post : list str),
      startswith curr prev = true ->
      dedup_lines (pre ++ prev :: curr :: post)
      = dedup_lines (pre ++ [prev])
        ++ spec_prefix_fragment prev curr
        ++ tail (dedup_lines (curr :: post)))
  /\ dedup [py "Hello"; py "Hello world"] = py "Hello world".
Proof.
  split.
  - intros pre prev curr post Hpre.
    rewrite dedup_lines_pair. do 2 f_equal.
    unfold emitted, spec_prefix_fragment. rewrite Hpre.
    now destruct (strip _).
  - vm_compute. reflexivity.
Qed.

Lemma prefix_case_fragment_witness :
  startswith (py "Hello world") (py "Hello") = true
  /\ dedup_lines ([] ++ py "Hello" :: py "Hello world" :: [py "Hello world again"])
     = dedup_lines ([] ++ [py "Hello"])
       ++ spec_prefix_fragment (py "Hello") (py "Hello world")
       ++ tail (dedup_lines (py "Hello world" :: [py "Hello world again"])).
Proof.
  split.
  - reflexivity.
  - apply (proj1 prefix_case_fragment
             [] (py "Hello") (py "Hello world") [py "Hello world again"]).
    reflexivity.
Defined.

(** C2.  In the deduplication pass, whenever a block [curr] does not start
    with the text of its predecessor [prev], both are split into their
    non-empty trimmed lines and the lines of [curr] from the start index
    on are kept, each as a fragment of its own and in order; the start
    index is 1 when the last line of [prev] is the first line of [curr],
    the number of lines of [prev] when [prev] has strictly fewer lines and
    its lines are a prefix of those of [curr], and 0 otherwise.  In
    particular, for the blocks "A\nB", "B\nC" only "C" is kept for the
    second one. *)
Theorem line_overlap_fragments :
  (forall (pre : list str) (prev curr : str) (post : list str),
      startswith curr prev = false ->
      dedup_lines (pre ++ prev :: curr :: post)
      = dedup_lines (pre ++ [prev])
        ++ drop (spec_start_idx (nonempty_lines prev) (nonempty_lines curr))
                (nonempty_lines curr)
        ++ tail (dedup_lines (curr :: post)))
  /\ emitted (py "A" ++ [NL] ++ py "B") (py "B" ++ [NL] ++ py "C") = [py "C"]
  /\ dedup [py "A" ++ [NL] ++ py "B"; py "B" ++ [NL] ++ py "C"]
     = py "A" ++ [NL] ++ py "B C".
Proof.
  split; [|split].
  - intros pre prev curr post Hpre.
    rewrite dedup_lines_pair. do 2 f_equal.
    unfold emitted. rewrite Hpre. now rewrite start_idx_spec.
  - vm_compute. reflexivity.
  - vm_compute. reflexivity.
Qed.

Lemma line_overlap_fragments_witness :
  startswith (py "B" ++ [NL] ++ py "C") (py "A" ++ [NL] ++ py "B") = false
  /\ dedup_lines ([py "A"] ++ (py "A" ++ [NL] ++ py "B")
                           :: (py "B" ++ [NL] ++ py "C") :: [py "D"])
     = [py "A"; py "B"; py "C"; py "D"].
Proof.
  split.
  - reflexivity.
  - rewrite (proj1 line_overlap_fragments
               [py "A"] (py "A" ++ [NL] ++ py "B") (py "B" ++ [NL] ++ py "C")
               [py "D"]) by reflexivity.
    vm_compute. reflexivity.
Defined.

(** C3.  The text [clean_srt_content] returns is a function of the ordered
    cleaned cue texts alone: two subtitle files whose cues give the same
    sequence of cleaned non-empty texts give the same output, whatever
    their sequence numbers and timestamps are.  For a file written cue by
    cue the output is the deduplication of the cleaned texts, in which
    neither numbers nor timestamps occur. *)
Theorem clean_srt_content_depends_on_texts_only :
  (forall content1 content2 : str,
      cleaned_blocks content1 = cleaned_blocks content2 ->
      clean_srt_content content1 = clean_srt_content content2)
  /\ (forall cues : list cue,
         forallb well_formed_cue cues = true ->
         clean_srt_content (render cues)
         = dedup (filter (fun b => truthy b = true)
                         (map clean_text (map cue_text cues))))
  /\ (forall cues1 cues2 : list cue,
         forallb well_formed_cue cues1 = true ->
         forallb well_formed_cue cues2 = true ->
         filter (fun b => truthy b = true) (map clean_text (map cue_text cues1))
         = filter (fun b => truthy b = true) (map clean_text (map cue_text cues2)) ->
         clean_srt_content (render cues1) = clean_srt_content (render cues2)).
Proof.
  assert (Hfun : forall content, clean_srt_content content = dedup (cleaned_blocks content))
    by reflexivity.
  split; [|split].
  - intros content1 content2 Heq. now rewrite !Hfun, Heq.
  - intros cues Hwf. now rewrite Hfun, cleaned_blocks_render.
  - intros cues1 cues2 Hwf1 Hwf2 Heq.
    now rewrite !Hfun, !cleaned_blocks_render, Heq.
Qed.

Lemma clean_srt_content_depends_on_texts_only_witness :
  (sample_content1 <> sample_content2
   /\ cleaned_blocks sample_content1 = cleaned_blocks sample_content2
   /\ clean_srt_content sample_content1 = clean_srt_content sample_content2)
  /\ (map cue_number sample_cues1 <> map cue_number sample_cues2
      /\ map cue_start sample_cues1 <> map cue_start sample_cues2
      /\ forallb well_formed_cue sample_cues1 = true
      /\ forallb well_formed_cue sample_cues2 = true
      /\ clean_srt_content (render sample_cues1)
         = clean_srt_content (render sample_cues2))
  /\ clean_srt_content (render sample_cues1) = py "Hello world".
Proof.
  assert (Hblocks : cleaned_blocks sample_content1 = cleaned_blocks sample_content2)
    by (vm_compute; reflexivity).
  assert (Hwf1 : forallb well_formed_cue sample_cues1 = true)
    by (vm_compute; reflexivity).
  assert (Hwf2 : forallb well_formed_cue sample_cues2 = true)
    by (vm_compute; reflexivity).
  split; [|split].
  - split; [vm_compute; discriminate|]. split; [exact Hblocks|].
    exact (proj1 clean_srt_content_depends_on_texts_only
             sample_content1 sample_content2 Hblocks).
  - split; [vm_compute; discriminate|]. split; [vm_compute; discriminate|].
    split; [exact Hwf1|]. split; [exact Hwf2|].
    apply (proj2 (proj2 clean_srt_content_depends_on_texts_only)
             sample_cues1 sample_cues2 Hwf1 Hwf2).
    vm_compute. reflexivity.
  - vm_compute. reflexivity.
Defined.

Section PipelineClaims.

Context `{Ext : Externals}.

(** C4.  Terminology rules compose sequentially: running a list of rules
    is running its first part and then the rest on the text the first
    part produced, never on the original text.  In particular the rules
    foo -> bar, bar -> baz turn "foo" into "baz", not "bar". *)
Theorem enforce_terminology_sequential :
  (forall (text : str) (rs1 rs2 : list rule) (w : world),
      enforce_terminology text (rs1 ++ rs2) w
      = bind (enforce_terminology text rs1)
             (fun t => enforce_terminology t rs2) w)
  /\ (forall (text : str) (r : rule) (rest : list rule) (w : world),
         is_regex r = false ->
         enforce_terminology text (r :: rest) w
         = enforce_terminology (replace text (original r) (replacement r)) rest w)
  /\ (forall w : world,
         enforce_terminology (py "foo")
           [Rule (py "foo") (py "bar") false; Rule (py "bar") (py "baz") false] w
         = (Ok (py "baz"), w)).
Proof.
  split; [|split].
  - apply enforce_terminology_app.
  - intros text r rest w Hlit. cbn [enforce_terminology].
    unfold bind, apply_rule. rewrite Hlit. reflexivity.
  - intros w. reflexivity.
Qed.

(** C5.  A regex rule whose application raises does not make
    [enforce_terminology] raise: the error is logged, the text stays as
    it stood before that rule, and the rules after it are applied to
    that text.  The function returns a text for every rule list and
    input. *)
Theorem enforce_terminology_skips_failing_rule :
  (forall (text : str) (rs1 rs2 : list rule) (r : rule) (e t : str) (w w1 : world),
      is_regex r = true ->
      enforce_terminology text rs1 w = (Ok t, w1) ->
      re_sub (original r) (replacement r) t = Raise e ->
      enforce_terminology text (rs1 ++ r :: rs2) w
      = enforce_terminology t rs2
          (record (EvLog ERROR (MsgRegexError (original r) e)) w1))
  /\ (forall (text : str) (rules : list rule) (w : world),
         exists t w', enforce_terminology text rules w = (Ok t, w')).
Proof.
  split.
  - intros text rs1 rs2 r e t w w1 Hre H1 Hraise.
    rewrite enforce_terminology_app. unfold bind at 1. rewrite H1.
    cbn [enforce_terminology]. unfold bind, apply_rule.
    rewrite Hre. unfold try_except, lift. rewrite Hraise.
    reflexivity.
  - intros text rules w.
    destruct (enforce_terminology_ok text rules w) as (t & w' & H & _).
    eauto.
Qed.

(** C6.  A job whose output path exists when [process_file] starts does
    nothing else: it checks the path and logs the skip; the input is not
    read, the client is not called, nothing is written.  So a batch over
    files whose outputs are all there leaves the file system as it was
    and does no work. *)
Theorem process_file_idempotent_skip :
  (forall (file_path output_dir : str) (rules : list rule) (w : world),
      is_Some (fs w !! output_path file_path output_dir) ->
      exists w',
        process_file file_path output_dir rules w = (Ok tt, w')
        /\ fs w' = fs w /\ gemini w' = gemini w
        /\ trace w'
           = trace w ++ [EvExists (output_path file_path output_dir);
                         EvLog INFO (MsgSkipping (Os.basename file_path))])
  /\ (forall (dir output_dir : str) (rules : list rule) (files : list str) (w : world),
         (forall f, In f files ->
                    is_Some (fs w !! output_path (Os.join dir f) output_dir)) ->
         exists w' new,
           run_jobs dir output_dir rules files w = (Ok tt, w')
           /\ fs w' = fs w /\ gemini w' = gemini w
           /\ trace w' = trace w ++ new
           /\ forallb (fun e => negb (is_work e)) new = true).
Proof.
  assert (Hone : forall file_path output_dir rules w,
             is_Some (fs w !! output_path file_path output_dir) ->
             exists w',
               process_file file_path output_dir rules w = (Ok tt, w')
               /\ fs w' = fs w /\ gemini w' = gemini w
               /\ trace w'
                  = trace w ++ [EvExists (output_path file_path output_dir);
                                EvLog INFO (MsgSkipping (Os.basename file_path))]).
  { intros file_path output_dir rules w Hex.
    rewrite (process_file_skip _ _ rules w Hex).
    eexists. split; [reflexivity|]. cbn. now rewrite <- app_assoc. }
  split; [exact Hone|].
  intros dir output_dir rules files.
  induction files as [|f files IH]; intros w Hall.
  - exists w, []. cbn. now rewrite app_nil_r.
  - cbn [run_jobs]. unfold bind.
    destruct (Hone (Os.join dir f) output_dir rules w) as (w1 & -> & Hfs & Hg & Htr).
    { apply Hall. now left. }
    destruct (IH w1) as (w2 & new & -> & Hfs2 & Hg2 & Htr2 & Hq).
    { intros g Hin. rewrite Hfs. apply Hall. now right. }
    eexists w2, (_ ++ new). split; [reflexivity|].
    repeat split; try congruence.
    + rewrite Htr2, Htr, <- app_assoc. reflexivity.
    + rewrite forallb_app, Hq. reflexivity.
Qed.

(** C7.  Against a client that fails with a rate-limit error on every
    invocation, [process_with_gemini] calls it exactly [max_retries]
    times, does not raise and returns the empty text; [process_file]
    then logs the failure, returns normally and writes no file. *)
Theorem retry_exhaustion :
  always_rate_limited ->
  (forall (text filename title current_date event_date : str)
          (max_retries : nat) (w : world),
      exists w' new,
        process_with_gemini text filename title current_date event_date
                            max_retries w = (Ok (Some []), w')
        /\ fs w' = fs w
        /\ trace w' = trace w ++ new
        /\ calls new = max_retries
        /\ forallb (fun e => negb (is_write e)) new = true)
  /\ (forall (file_path output_dir : str) (rules : list rule)
             (content : str) (w : world),
         fs w !! output_path file_path output_dir = None ->
         fs w !! file_path = Some (Ok content) ->
         truthy (strip (job_text file_path content)) = true ->
         exists w' new,
           process_file file_path output_dir rules w = (Ok tt, w')
           /\ fs w' = fs w
           /\ trace w' = trace w ++ new
           /\ calls new = 3
           /\ forallb (fun e => negb (is_write e)) new = true
           /\ last new
              = Some (EvLog ERROR (MsgGenerationFailed (Os.basename file_path)))).
Proof.
  intros Hrl.
  assert (Hloop : forall text filename title current_date event_date max_retries w,
             exists w' new,
               process_with_gemini text filename title current_date event_date
                                   max_retries w = (Ok (Some []), w')
               /\ fs w' = fs w
               /\ trace w' = trace w ++ new
               /\ calls new = max_retries
               /\ forallb (fun e => negb (is_write e)) new = true).
  { intros text filename title current_date event_date max_retries w.
    unfold process_with_gemini.
    match goal with
    | |- context [retry_loop ?a ?p ?f ?m w] =>
        destruct (retry_loop_exhausted a p f m w Hrl) as (w' & -> & Hfs & Htr)
    end.
    eexists w', _. split; [reflexivity|]. split; [exact Hfs|].
    split; [exact Htr|]. split.
    - rewrite rate_limited_attempts_calls. apply length_seq.
    - apply rate_limited_attempts_no_write. }
  split; [exact Hloop|].
  intros file_path output_dir rules content w Hout Hin Htext.
  rewrite (process_file_started _ _ rules content w Hout Hin).
  cbv zeta. rewrite Htext. cbn [negb]. unfold try_except, bind.
  match goal with
  | |- context [process_with_gemini ?t ?f ?ti ?cd ?ed ?m ?w0] =>
      destruct (Hloop t f ti cd ed m w0) as (w1 & new & -> & Hfs & Htr & Hcalls & Hnw)
  end.
  cbn [falsy log]. cbn [fs trace] in Hfs, Htr.
  eexists _, (job_prologue file_path output_dir ++ new ++ [_]).
  split; [reflexivity|]. cbn [record fs trace].
  split; [exact Hfs|]. split; [|split; [|split]].
  - rewrite Htr, <- !app_assoc. reflexivity.
  - rewrite !calls_app, Hcalls. unfold job_prologue.
    destruct (endswith _ _); reflexivity.
  - rewrite !forallb_app, Hnw. unfold job_prologue.
    destruct (endswith _ _); reflexivity.
  - rewrite !app_assoc. apply last_snoc.
Qed.

(** C8.  A job whose text, after subtitle cleaning when the file is a
    subtitle file, is empty or whitespace only, never calls the client
    and writes nothing; unless it was skipped because its output is
    there already, it stops at the empty-file warning. *)
Theorem empty_content_short_circuit
        (file_path output_dir : str) (rules : list rule) (content : str) (w : world) :
  fs w !! file_path = Some (Ok content) ->
  strip (job_text file_path content) = [] ->
  exists w' new,
    process_file file_path output_dir rules w = (Ok tt, w')
    /\ fs w' = fs w /\ gemini w' = gemini w
    /\ trace w' = trace w ++ new
    /\ calls new = 0
    /\ forallb (fun e => negb (is_write e)) new = true
    /\ (fs w !! output_path file_path output_dir = None ->
        new = job_prologue file_path output_dir
              ++ [EvLog WARNING (MsgEmptyFile (Os.basename file_path))]).
Proof.
  intros Hin Hempty.
  destruct (fs w !! output_path file_path output_dir) as [x|] eqn:Hout.
  - rewrite process_file_skip by (rewrite Hout; eauto).
    eexists _, [_; _]. split; [reflexivity|].
    unfold record. cbn [fs gemini trace].
    split; [reflexivity|]. split; [reflexivity|].
    split; [now rewrite <- app_assoc|].
    split; [reflexivity|]. split; [reflexivity|].
    intros; discriminate.
  - rewrite (process_file_started _ _ rules content w Hout Hin).
    cbv zeta. rewrite Hempty. cbn [truthy negb].
    unfold try_except, log, record. cbn [fs gemini trace].
    eexists _, (job_prologue file_path output_dir ++ [_]).
    split; [reflexivity|]. cbn [fs gemini trace].
    split; [reflexivity|]. split; [reflexivity|].
    split; [now rewrite <- app_assoc|].
    split; [|split].
    + rewrite calls_app. unfold job_prologue.
      destruct (endswith _ _); reflexivity.
    + rewrite forallb_app. unfold job_prologue.
      destruct (endswith _ _); reflexivity.
    + reflexivity.
Qed.

(** C10.  The output file name is the base name of the input without
    its extension, followed by [_rag.txt].  So two inputs of one
    directory whose names differ in the extension only have the same
    output path; a job of the first that changed the file system has
    written that path, and wherever that path exists the job of the
    second is skipped. *)
Theorem output_path_collision
        (dir output_dir stem ext1 ext2 : str) :
  plain_stem stem = true -> plain_ext ext1 = true -> plain_ext ext2 = true ->
  output_path (Os.join dir (stem ++ "."%char :: ext1)) output_dir
  = Os.join output_dir (stem ++ py "_rag.txt")
  /\ output_path (Os.join dir (stem ++ "."%char :: ext2)) output_dir
     = output_path (Os.join dir (stem ++ "."%char :: ext1)) output_dir
  /\ (forall (rules : list rule) (w w1 : world),
         process_file (Os.join dir (stem ++ "."%char :: ext1)) output_dir rules w
         = (Ok tt, w1) ->
         fs w1 <> fs w ->
         is_Some (fs w1 !! Os.join output_dir (stem ++ py "_rag.txt")))
  /\ (forall (rules : list rule) (w : world),
         is_Some (fs w !! Os.join output_dir (stem ++ py "_rag.txt")) ->
         exists w',
           process_file (Os.join dir (stem ++ "."%char :: ext2)) output_dir rules w
           = (Ok tt, w')
           /\ fs w' = fs w /\ gemini w' = gemini w
           /\ trace w'
              = trace w
                ++ [EvExists (Os.join output_dir (stem ++ py "_rag.txt"));
                    EvLog INFO (MsgSkipping (stem ++ "."%char :: ext2))]).
Proof.
  intros Hs He1 He2.
  pose proof (output_path_plain dir output_dir stem ext1 Hs He1) as Hp1.
  pose proof (output_path_plain dir output_dir stem ext2 Hs He2) as Hp2.
  split; [exact Hp1|]. split; [congruence|]. split.
  - intros rules w w1 Hrun Hchg.
    destruct (process_file_frame (Os.join dir (stem ++ "."%char :: ext1))
                                 output_dir rules w)
      as (w1' & Hrun' & Hfs).
    rewrite Hrun in Hrun'. injection Hrun' as <-.
    destruct Hfs as [Hfs|[data Hfs]]; [contradiction|].
    rewrite Hfs, Hp1, lookup_insert_eq. eauto.
  - intros rules w Hex.
    rewrite process_file_skip by (rewrite Hp2; exact Hex).
    eexists. split; [reflexivity|]. unfold record. cbn [fs gemini trace].
    rewrite Hp2, basename_join by now apply plain_name_no_slash.
    rewrite <- app_assoc. auto.
Qed.

End PipelineClaims.

(** C9 (as the claim states it fails).  A file name with a recognized
    extension that is not on the denylist, does not end with the output
    suffix (nor has a stem ending with [_rag]) and is not hidden, and that
    the filter of [main] rejects nevertheless. *)
Lemma discovery_suffix_counterexample :
  ~ (eligible (py "my_rag_notes.txt") = true
     <-> spec_eligible (py "my_rag_notes.txt") = true).
Proof.
  intros [_ H].
  assert (Hs : spec_eligible (py "my_rag_notes.txt") = true)
    by (vm_compute; reflexivity).
  apply H in Hs. vm_compute in Hs. discriminate.
Qed.

(** C9 (amended).  A file name of the listing is selected if and only if
    it ends with [.txt] or [.srt], does not contain [_rag] anywhere, is
    not on the denylist and does not start with a dot. *)
Theorem discovery_eligibility (f : str) :
  eligible f = true
  <-> (has_recognized_extension f = true
       /\ contains f (py "_rag") = false
       /\ ~ In f excluded_files
       /\ is_hidden f = false).
Proof.
  unfold eligible, has_recognized_extension, is_hidden.
  rewrite !andb_true_iff, !negb_true_iff, bool_decide_eq_false.
  rewrite list_elem_of_In. tauto.
Qed.

Lemma discovery_eligibility_witness :
  eligible (py "talk.srt") = true /\ discover [py "talk.srt"; py "rules.txt";
                                               py "talk_rag.txt"; py ".talk.txt";
                                               py "notes.md"; py "a.txt"]
                                    = [py "talk.srt"; py "a.txt"].
Proof.
  split.
  - apply (proj2 (discovery_eligibility (py "talk.srt"))).
    repeat split; try reflexivity.
    intros Hin. vm_compute in Hin.
    repeat (destruct Hin as [Hin|Hin]; [discriminate|]). exact Hin.
  - vm_compute. reflexivity.
Defined.

(** * Further properties of the program *)

(** ** Deduplication *)

(** X1.  A block that repeats its predecessor adds nothing: the pass
    gives the same fragments, and the same text, with or without the
    repetition, wherever it occurs. *)
Theorem dedup_repeated_block (pre : list str) (b : str) (post : list str) :
  dedup_lines (pre ++ b :: b :: post) = dedup_lines (pre ++ b :: post)
  /\ dedup (pre ++ b :: b :: post) = dedup (pre ++ b :: post).
Proof.
  assert (H : dedup_lines (pre ++ b :: b :: post) = dedup_lines (pre ++ b :: post)).
  { rewrite dedup_lines_pair, emitted_same. cbn [app].
    symmetry. apply dedup_lines_at. }
  split; [exact H|]. unfold dedup. now rewrite H.
Qed.

(** X2.  Rollup subtitles are put back together: when the cues show the
    first line alone and then every line under the one before it, the
    lines are clean (not empty, one line each, no whitespace at the ends)
    and no line is shown twice in a row, the fragments kept are exactly
    the lines, once each and in order. *)
Theorem dedup_rollup (lines : list str) :
  forallb is_line lines = true ->
  no_repeat lines = true ->
  dedup_lines (rollup_blocks lines) = lines
  /\ dedup (rollup_blocks lines) = join [SP] lines.
Proof.
  intros Hl Hr.
  assert (H : dedup_lines (rollup_blocks lines) = lines).
  { destruct lines as [|a [|b rest]]; [reflexivity|reflexivity|].
    cbn [rollup_blocks rollup_from]. rewrite dedup_lines_chain. cbn [chain].
    pose proof Hl as Hl'. cbn [forallb] in Hl'.
    apply andb_prop in Hl' as [Ha Hl']. apply andb_prop in Hl' as [Hb _].
    rewrite (emitted_first_pair a b Ha Hb), (chain_rollup a b rest Hl Hr).
    reflexivity. }
  split; [exact H|]. unfold dedup. now rewrite H.
Qed.

(** X3.  A file in which no arrow [ --> ] occurs has no cue, and its
    cleaned text is empty. *)
Theorem clean_srt_content_without_arrow (content : str) :
  contains content (py " --> ") = false ->
  clean_srt_content content = [].
Proof.
  intros H. unfold clean_srt_content, parse_blocks, replace.
  rewrite finditer_no_arrow; [reflexivity|].
  destruct (contains (replace_from [CR; NL] [NL] content 0) (py " --> ")) eqn:Hc;
    [|reflexivity].
  apply contains_unix in Hc; [congruence|reflexivity|].
  cbn. intros Hin. repeat (destruct Hin as [Hin|Hin]; [discriminate Hin|]).
  exact Hin.
Qed.

(** X4.  Line ends do not matter: a text without carriage returns gives
    the same result with Windows line ends ([\r\n] for every [\n]). *)
Theorem clean_srt_content_crlf (content : str) :
  existsb (Ascii.eqb CR) content = false ->
  clean_srt_content (to_crlf content) = clean_srt_content content.
Proof.
  intros H. apply existsb_eqb_false in H.
  unfold clean_srt_content.
  rewrite (crlf_round_trip content H).
  unfold replace. now rewrite (replace_from_absent CR [NL] [NL] content H).
Qed.

(** ** The rules file *)


(** X6.  Whatever the rules file holds, every rule loaded from it has an
    original and a replacement without whitespace at their ends, and an
    original in which no arrow occurs: a line is split at its first
    arrow. *)
Theorem loaded_rules_normalised (content : str) (r : rule) :
  In r (Rules.parse_rules content) ->
  strip (original r) = original r
  /\ strip (replacement r) = replacement r
  /\ contains (original r) (py "->") = false.
Proof.
  unfold Rules.parse_rules. rewrite <- list_elem_of_In, list_elem_of_omap.
  intros (line & _ & Hp). unfold Rules.parse_line in Hp.
  destruct (_ || _); [discriminate Hp|].
  destruct (contains _ _); [|discriminate Hp].
  destruct (Rules.split_arrow _) as [[a b]|] eqn:Hs; [|discriminate Hp].
  injection Hp as <-. cbn [original replacement].
  split; [apply strip_idempotent|]. split; [apply strip_idempotent|].
  apply split_arrow_before in Hs.
  destruct (contains (strip a) (py "->")) eqn:Hc; [|reflexivity].
  apply contains_strip in Hc. congruence.
Qed.

Section PipelineExtras.

Context `{Ext : Externals}.


(** X8.  Literal rules whose originals are not empty and do not occur in
    the text leave it as it is, and log nothing. *)
Theorem enforce_terminology_no_occurrence (text : str) (rules : list rule) (w : world) :
  forallb (fun r => negb (is_regex r) && truthy (original r)
                    && negb (contains text (original r))) rules = true ->
  enforce_terminology text rules w = (Ok text, w).
Proof.
  induction rules as [|r rules IH]; intros H; [reflexivity|].
  cbn [forallb] in H. apply andb_prop in H as [Hr H].
  apply andb_prop in Hr as [Hr Hc]. apply andb_prop in Hr as [Hlit Hne].
  apply negb_true_iff in Hlit, Hc.
  cbn [enforce_terminology]. unfold bind, apply_rule. rewrite Hlit.
  unfold ret. rewrite (replace_missing text _ _ Hne Hc). now apply IH.
Qed.

(** X9.  The retry policy is bounded, whatever the client does:
    [process_with_gemini] returns without raising after at most
    [max_retries] calls, and touches no file. *)
Theorem process_with_gemini_bounded
        (text filename title current_date event_date : str)
        (max_retries : nat) (w : world) :
  exists r w' new,
    process_with_gemini text filename title current_date event_date max_retries w
    = (Ok r, w')
    /\ fs w' = fs w
    /\ trace w' = trace w ++ new
    /\ calls new <= max_retries
    /\ forallb (fun e => negb (is_write e)) new = true.
Proof.
  unfold process_with_gemini.
  match goal with
  | |- context [retry_loop ?a ?p ?f ?m w] =>
      destruct (retry_loop_bounded a p f m w) as (r & w' & new & H & Hfs & Htr & Hc & Hw)
  end.
  exists r, w', new. rewrite length_seq in Hc. auto.
Qed.

(** X10.  Against a client that is rate limited at every call the waits
    grow by five seconds, 5, 10, ..., and the last attempt is followed by
    a wait as well: the seconds slept are 5 n (n + 1) / 2 for [n]
    attempts. *)
Theorem rate_limited_backoff
        (text filename title current_date event_date : str)
        (max_retries : nat) (w : world) :
  always_rate_limited ->
  exists w' new,
    process_with_gemini text filename title current_date event_date max_retries w
    = (Ok (Some []), w')
    /\ trace w' = trace w ++ new
    /\ 2 * slept new = 5 * max_retries * (max_retries + 1)
    /\ (0 < max_retries -> last new = Some (EvSleep (5 * max_retries))).
Proof.
  intros Hrl. unfold process_with_gemini.
  match goal with
  | |- context [retry_loop ?a ?p ?f ?m w] =>
      destruct (retry_loop_exhausted a p f m w Hrl) as (w' & H & _ & Htr)
  end.
  eexists w', _. split; [exact H|]. split; [exact Htr|].
  split; [apply slept_rate_limited|].
  intros Hpos. destruct max_retries as [|n]; [lia|].
  rewrite seq_S, flat_map_app. cbn [flat_map Nat.add].
  rewrite app_nil_r. unfold rate_limited_attempt at 2.
  rewrite last_app. cbn [last].
  do 2 f_equal. lia.
Qed.

(** X11.  Against a client that fails with another error at every call,
    [max_retries] calls are made as well, with two seconds between them
    and none after the last, and the result is the empty text. *)
Theorem other_errors_retried
        (text filename title current_date event_date : str)
        (max_retries : nat) (w : world) :
  always_other_error ->
  exists w' new,
    process_with_gemini text filename title current_date event_date max_retries w
    = (Ok (Some []), w')
    /\ fs w' = fs w
    /\ trace w' = trace w ++ new
    /\ calls new = max_retries
    /\ slept new = 2 * (max_retries - 1).
Proof.
  intros Herr. unfold process_with_gemini.
  match goal with
  | |- context [retry_loop (seq 0 ?m) ?p ?f ?m w] =>
      destruct (retry_loop_other_errors 0 m m p f w Herr eq_refl)
        as (w' & new & H & Hfs & Htr & Hc & Hs & _)
  end.
  exists w', new. auto.
Qed.

(** X12.  A job never raises and never changes a file that is there: its
    input, the outputs of other jobs and every other file are after the
    job what they were before it. *)
Theorem process_file_keeps_existing_files
        (file_path output_dir : str) (rules : list rule) (w : world) :
  exists w1,
    process_file file_path output_dir rules w = (Ok tt, w1)
    /\ (forall p, is_Some (fs w !! p) -> fs w1 !! p = fs w !! p)
    /\ (forall p, p <> output_path file_path output_dir -> fs w1 !! p = fs w !! p).
Proof.
  destruct (process_file_effect file_path output_dir rules w)
    as (w1 & Hrun & [Hfs|(Hout & content & final & _ & _ & Hfs)]).
  - exists w1. split; [exact Hrun|]. split; intros p _; now rewrite Hfs.
  - exists w1. split; [exact Hrun|]. split.
    + intros p Hp. rewrite Hfs. apply lookup_insert_ne. intros <-.
      rewrite Hout in Hp. destruct Hp as [x Hx]. discriminate Hx.
    + intros p Hp. rewrite Hfs. now apply lookup_insert_ne.
Qed.

(** X13.  What a job writes: when a job changes the file system, its
    input could be read and its text was not blank, and the new file at
    the output path is some text followed by the separator and the whole
    text of the input (cleaned, for a subtitle file). *)
Theorem process_file_output_keeps_input
        (file_path output_dir : str) (rules : list rule) (w w1 : world) :
  process_file file_path output_dir rules w = (Ok tt, w1) ->
  fs w1 <> fs w ->
  exists content final,
    fs w !! file_path = Some (Ok content)
    /\ truthy (strip (job_text file_path content)) = true
    /\ fs w1 !! output_path file_path output_dir
       = Some (Ok (final ++ separator ++ job_text file_path content)).
Proof.
  intros Hrun Hchg.
  destruct (process_file_effect file_path output_dir rules w)
    as (w1' & Hrun' & Hfs).
  rewrite Hrun in Hrun'. injection Hrun' as <-.
  destruct Hfs as [Hfs|(_ & content & final & Hin & Htext & Hfs)];
    [contradiction|].
  exists content, final. split; [exact Hin|]. split; [exact Htext|].
  rewrite Hfs. apply lookup_insert_eq.
Qed.

(** X14.  An input that cannot be read (missing, or not decodable) costs
    nothing: the error is logged, the client is not called, nothing is
    written, and the job returns normally. *)
Theorem process_file_unreadable_input
        (file_path output_dir : str) (rules : list rule) (w : world) :
  fs w !! output_path file_path output_dir = None ->
  (forall content, fs w !! file_path <> Some (Ok content)) ->
  exists e,
    process_file file_path output_dir rules w
    = (Ok tt,
       World (fs w) (gemini w)
             (trace w ++ [EvExists (output_path file_path output_dir);
                          EvLog INFO (MsgStarting (Os.basename file_path));
                          EvRead file_path;
                          EvLog ERROR (MsgFileError (Os.basename file_path) e)])).
Proof.
  intros Hout Hin.
  unfold process_file. unfold bind at 1. unfold path_exists.
  rewrite bool_decide_eq_false_2
    by (rewrite Hout; intros [x Hx]; discriminate).
  unfold bind at 1. unfold log at 1. unfold try_except.
  unfold bind at 1. unfold read_file. cbn [fs record].
  destruct (fs w !! file_path) as [[content|e]|] eqn:Hf.
  - now destruct (Hin content).
  - exists e. unfold log, record. cbn [fs gemini trace].
    now rewrite <- !app_assoc.
  - eexists. unfold log, record. cbn [fs gemini trace].
    now rewrite <- !app_assoc.
Qed.

(** X15.  A job never writes over its own input: the output path of a
    file is never the path of the file. *)
Theorem output_path_is_not_input (file_path output_dir : str) :
  output_path file_path output_dir <> file_path.
Proof.
  intros Heq.
  pose proof (basename_output_path file_path output_dir) as Hb.
  rewrite Heq in Hb.
  destruct (splitext_parts (Os.basename file_path)) as [Hp Hext].
  rewrite <- Hp in Hb at 1. apply app_inv_head in Hb.
  destruct Hext as [Hext|[x Hext]]; rewrite Hext in Hb; discriminate Hb.
Qed.

(** X16.  Outputs are never taken for inputs: the name of the output
    file of any job is not eligible for processing, so a later run over
    a directory that holds outputs does not process them. *)
Theorem output_is_not_eligible (file_path output_dir : str) :
  eligible (Os.basename (output_path file_path output_dir)) = false.
Proof.
  rewrite basename_output_path. unfold eligible.
  assert (Hc : contains (fst (Os.splitext (Os.basename file_path)) ++ py "_rag.txt")
                        (py "_rag") = true).
  { change (py "_rag.txt") with (py "_rag" ++ py ".txt"). apply contains_middle. }
  rewrite Hc. cbn [negb]. now rewrite andb_false_r.
Qed.

(** X17.  For a file that discovery selects, the output file is named
    after it with the four characters of the extension replaced by
    [_rag.txt], in the output directory. *)
Theorem eligible_output_path (dir output_dir f : str) :
  eligible f = true ->
  existsb (Ascii.eqb "/") f = false ->
  output_path (Os.join dir f) output_dir
  = Os.join output_dir (take (length f - 4) f ++ py "_rag.txt").
Proof.
  unfold eligible. intros H Hslash.
  apply andb_prop in H as [H Hhid]. apply negb_true_iff in Hhid.
  apply andb_prop in H as [H _]. apply andb_prop in H as [Hext _].
  assert (Hf : exists s ext, f = s ++ "."%char :: ext /\ length ext = 3
                             /\ plain_ext ext = true).
  { apply orb_prop in Hext as [Hext|Hext]; apply endswith_split in Hext as [s ->].
    - exists s, (py "txt"). auto.
    - exists s, (py "srt"). auto. }
  destruct Hf as (s & ext & -> & Hlen & Hpe).
  assert (Hs : plain_stem s = true).
  { unfold plain_stem. apply andb_true_intro. split.
    - rewrite existsb_app in Hslash. apply orb_false_elim in Hslash as [-> _].
      reflexivity.
    - destruct s as [|c s]; [discriminate Hhid|].
      cbn [app py list_ascii_of_string startswith] in Hhid.
      rewrite andb_true_r in Hhid. cbn [existsb].
      rewrite (Ascii.eqb_sym c "."), Hhid. reflexivity. }
  rewrite (output_path_plain dir output_dir s ext Hs Hpe).
  rewrite length_app. cbn [length]. rewrite Hlen.
  replace (length s + 4 - 4) with (length s) by lia.
  now rewrite take_app_length.
Qed.

(** X18.  A batch never raises and never changes a file that is there
    when it starts. *)
Theorem run_jobs_keeps_existing_files
        (dir output_dir : str) (rules : list rule) (files : list str) (w : world) :
  exists w',
    run_jobs dir output_dir rules files w = (Ok tt, w')
    /\ forall p, is_Some (fs w !! p) -> fs w' !! p = fs w !! p.
Proof.
  revert w. induction files as [|f files IH]; intros w.
  - exists w. auto.
  - cbn [run_jobs]. unfold bind.
    destruct (process_file_keeps (Os.join dir f) output_dir rules w)
      as (w1 & -> & H1).
    destruct (IH w1) as (w2 & -> & H2).
    exists w2. split; [reflexivity|]. intros p Hp.
    rewrite H2, H1; auto. now rewrite H1.
Qed.

(** X20.  The path of success: when the output is not there, the input
    can be read and is not blank, the first call of the client answers
    with a text that is not empty, and the output path can be written,
    the job calls the client once, does not sleep, and writes the answer
    after the terminology rules, the separator and the text of the
    input. *)
Theorem process_file_success
        (file_path output_dir : str) (rules : list rule)
        (content answer : str) (c' : client) (w : world) :
  fs w !! output_path file_path output_dir = None ->
  fs w !! file_path = Some (Ok content) ->
  truthy (strip (job_text file_path content)) = true ->
  generate_content
    (gemini w)
    (get_rag_prompt
       (job_text file_path content) (Os.basename file_path)
       (fst (extract_metadata_from_filename (Os.basename file_path)))
       current_date_str
       (snd (extract_metadata_from_filename (Os.basename file_path))))
  = (Ok (Some answer), c') ->
  truthy answer = true ->
  can_write (output_path file_path output_dir) = true ->
  exists w1 new,
    process_file file_path output_dir rules w = (Ok tt, w1)
    /\ fs w1 = <[output_path file_path output_dir
                 := Ok (rules_result answer rules ++ separator
                        ++ job_text file_path content)]> (fs w)
    /\ gemini w1 = c'
    /\ trace w1 = trace w ++ new
    /\ calls new = 1 /\ slept new = 0.
Proof.
  intros Hout Hin Htext Hgen Hans Hcw.
  rewrite (process_file_started _ _ rules content w Hout Hin).
  cbv zeta. rewrite Htext. cbn [negb]. unfold try_except.
  unfold bind at 1. unfold process_with_gemini. cbn [seq retry_loop].
  unfold try_except at 1. unfold generate. cbn [gemini fs trace].
  rewrite Hgen.
  assert (Hf : falsy (Some answer) = false) by (now destruct answer).
  rewrite Hf. unfold bind. cbn [text_of].
  match goal with
  | |- context [enforce_terminology answer rules ?w0] =>
      destruct (enforce_terminology_result answer rules w0)
        as (w2 & -> & Hfs & Hg & new & Htr & Hq)
  end.
  cbn [fs gemini trace] in Hfs, Hg, Htr.
  unfold write_file. rewrite Hcw.
  eexists _, (job_prologue file_path output_dir ++ [_] ++ new ++ [_]).
  split; [reflexivity|]. cbn [fs gemini trace].
  split; [now rewrite Hfs|]. split; [exact Hg|].
  split; [rewrite Htr; now rewrite <- !app_assoc|].
  assert (Hnew : calls new = 0 /\ slept new = 0).
  { clear -Hq. induction new as [|e new IH]; [now split|].
    cbn [forallb] in Hq. apply andb_prop in Hq as [He Hq].
    destruct (IH Hq) as [Hc Hs]. rewrite calls_cons.
    change (e :: new) with ([e] ++ new). rewrite slept_app, Hs, Hc.
    destruct e; try discriminate He; split; reflexivity. }
  destruct Hnew as [Hc Hs].
  assert (Hpro : calls (job_prologue file_path output_dir) = 0
                 /\ slept (job_prologue file_path output_dir) = 0).
  { unfold job_prologue. destruct (endswith _ _); split; reflexivity. }
  destruct Hpro as [Hpc Hps].
  split.
  - rewrite !calls_app, Hpc, Hc. reflexivity.
  - rewrite !slept_app, Hps, Hs. reflexivity.
Qed.

End PipelineExtras.

(** ** File-name heuristics *)


(** * The claims at concrete inputs *)

Lemma toy_always_rate_limited : @always_rate_limited toy_externals.
Proof.
  intros c prompt. exists (py "429 RESOURCE_EXHAUSTED"), c.
  split; reflexivity.
Defined.

Lemma enforce_terminology_sequential_witness :
  is_regex rule_foo_bar = false
  /\ @enforce_terminology toy_externals (py "foo") [rule_foo_bar; rule_bar_baz]
                          world_fresh
     = (Ok (py "baz"), world_fresh).
Proof.
  split; [reflexivity|].
  rewrite (proj1 (proj2 (@enforce_terminology_sequential toy_externals))
             (py "foo") rule_foo_bar [rule_bar_baz] world_fresh eq_refl).
  reflexivity.
Defined.

Lemma enforce_terminology_skips_failing_rule_witness :
  is_regex rule_bad_regex = true
  /\ @enforce_terminology toy_externals (py "foo")
       ([rule_foo_bar] ++ rule_bad_regex :: [rule_bar_baz]) world_fresh
     = (Ok (py "baz"),
        record (EvLog ERROR (MsgRegexError (py "(foo")
                               (py "missing ), unterminated subpattern")))
               world_fresh).
Proof.
  split; [reflexivity|].
  rewrite (proj1 (@enforce_terminology_skips_failing_rule toy_externals)
             (py "foo") [rule_foo_bar] [rule_bar_baz] rule_bad_regex
             (py "missing ), unterminated subpattern") (py "bar")
             world_fresh world_fresh eq_refl eq_refl eq_refl).
  reflexivity.
Defined.

Lemma world_done_has_output :
  is_Some (fs world_done !! @output_path (py "in/X.txt") (py "out")).
Proof. exists (Ok (py "done")). vm_compute. reflexivity. Defined.

Lemma process_file_idempotent_skip_witness :
  exists w',
    @process_file toy_externals (py "in/X.txt") (py "out") [rule_foo_bar] world_done
    = (Ok tt, w')
    /\ fs w' = fs world_done /\ gemini w' = gemini world_done
    /\ trace w' = trace world_done
                  ++ [EvExists (output_path (py "in/X.txt") (py "out"));
                      EvLog INFO (MsgSkipping (Os.basename (py "in/X.txt")))].
Proof.
  apply (proj1 (@process_file_idempotent_skip toy_externals)).
  exact world_done_has_output.
Defined.

Lemma retry_exhaustion_witness :
  exists w' new,
    @process_file toy_externals (py "in/X.txt") (py "out") [rule_foo_bar] world_fresh
    = (Ok tt, w')
    /\ fs w' = fs world_fresh
    /\ trace w' = trace world_fresh ++ new
    /\ calls new = 3
    /\ forallb (fun e => negb (is_write e)) new = true
    /\ last new
       = Some (EvLog ERROR (MsgGenerationFailed (Os.basename (py "in/X.txt")))).
Proof.
  apply (proj2 (@retry_exhaustion toy_externals toy_always_rate_limited))
    with (content := py "hello").
  - vm_compute. reflexivity.
  - vm_compute. reflexivity.
  - reflexivity.
Defined.

Lemma empty_content_short_circuit_witness :
  exists w' new,
    @process_file toy_externals (py "in/X.srt") (py "out") [rule_foo_bar] world_blank
    = (Ok tt, w')
    /\ fs w' = fs world_blank /\ gemini w' = gemini world_blank
    /\ trace w' = trace world_blank ++ new
    /\ calls new = 0
    /\ forallb (fun e => negb (is_write e)) new = true
    /\ (fs world_blank !! @output_path (py "in/X.srt") (py "out") = None ->
        new = job_prologue (py "in/X.srt") (py "out")
              ++ [EvLog WARNING (MsgEmptyFile (Os.basename (py "in/X.srt")))]).
Proof.
  apply (@empty_content_short_circuit toy_externals)
    with (content := py "1" ++ [NL] ++ py "   ").
  - vm_compute. reflexivity.
  - vm_compute. reflexivity.
Defined.

Lemma world_done_has_joined_output :
  is_Some (fs world_done !! Os.join (py "out") (py "X" ++ py "_rag.txt")).
Proof. exists (Ok (py "done")). vm_compute. reflexivity. Defined.

Lemma output_path_collision_witness :
  @output_path (Os.join (py "in") (py "X.txt")) (py "out") = py "out/X_rag.txt"
  /\ @output_path (Os.join (py "in") (py "X.srt")) (py "out")
     = @output_path (Os.join (py "in") (py "X.txt")) (py "out")
  /\ exists w',
      @process_file toy_externals (Os.join (py "in") (py "X.srt")) (py "out")
                    [rule_foo_bar] world_done
      = (Ok tt, w')
      /\ fs w' = fs world_done.
Proof.
  destruct (@output_path_collision toy_externals
              (py "in") (py "out") (py "X") (py "txt") (py "srt")
              eq_refl eq_refl eq_refl) as (H1 & H2 & _ & H4).
  split; [exact H1|]. split; [exact H2|].
  destruct (H4 [rule_foo_bar] world_done world_done_has_joined_output)
    as (w' & Hrun & Hfs & _).
  exists w'. split; [exact Hrun|exact Hfs].
Defined.

(** * The further properties at concrete inputs *)

Lemma dedup_rollup_witness :
  forallb is_line sample_rollup_lines = true
  /\ no_repeat sample_rollup_lines = true
  /\ dedup (rollup_blocks sample_rollup_lines)
     = py "good evening and welcome to the show".
Proof.
  split; [reflexivity|]. split; [reflexivity|].
  rewrite (proj2 (dedup_rollup sample_rollup_lines eq_refl eq_refl)).
  reflexivity.
Defined.

Lemma clean_srt_content_without_arrow_witness :
  contains (py "1" ++ [NL] ++ py "00:00:01,000 -> 00:00:02,000" ++ [NL] ++ py "Hello")
           (py " --> ") = false
  /\ clean_srt_content
       (py "1" ++ [NL] ++ py "00:00:01,000 -> 00:00:02,000" ++ [NL] ++ py "Hello")
     = [].
Proof.
  split; [reflexivity|].
  apply clean_srt_content_without_arrow. reflexivity.
Defined.

Lemma clean_srt_content_crlf_witness :
  existsb (Ascii.eqb CR) sample_content1 = false
  /\ to_crlf sample_content1 <> sample_content1
  /\ clean_srt_content (to_crlf sample_content1) = clean_srt_content sample_content1.
Proof.
  split; [reflexivity|]. split; [vm_compute; discriminate|].
  apply clean_srt_content_crlf. reflexivity.
Defined.


Lemma loaded_rules_normalised_witness :
  In (Rule (py "a") (py "b -> c") false)
     (Rules.parse_rules (py "  a ->  b -> c  " ++ [NL]))
  /\ contains (original (Rule (py "a") (py "b -> c") false)) (py "->") = false.
Proof.
  assert (Hin : In (Rule (py "a") (py "b -> c") false)
                   (Rules.parse_rules (py "  a ->  b -> c  " ++ [NL])))
    by (vm_compute; left; reflexivity).
  split; [exact Hin|].
  exact (proj2 (proj2 (loaded_rules_normalised _ _ Hin))).
Defined.


Lemma enforce_terminology_no_occurrence_witness :
  @enforce_terminology toy_externals (py "hello")
    [Rule (py "xyz") (py "q") false; Rule (py "lo!") (py "") false] world_fresh
  = (Ok (py "hello"), world_fresh).
Proof.
  apply (@enforce_terminology_no_occurrence toy_externals). reflexivity.
Defined.

Lemma rate_limited_backoff_witness :
  exists w' new,
    @process_with_gemini toy_externals (py "text") (py "X.txt") (py "X")
                         (py "today") (py "N/A") 3 world_fresh
    = (Ok (Some []), w')
    /\ trace w' = trace world_fresh ++ new
    /\ 2 * slept new = 5 * 3 * (3 + 1)
    /\ (0 < 3 -> last new = Some (EvSleep (5 * 3))).
Proof.
  apply (@rate_limited_backoff toy_externals). exact toy_always_rate_limited.
Defined.

Lemma failing_always_other_error : @always_other_error failing_externals.
Proof.
  intros c prompt. exists (py "500 INTERNAL"), c. split; reflexivity.
Defined.

Lemma other_errors_retried_witness :
  exists w' new,
    @process_with_gemini failing_externals (py "text") (py "X.txt") (py "X")
                         (py "today") (py "N/A") 3 (failing_world [])
    = (Ok (Some []), w')
    /\ fs w' = fs (failing_world [])
    /\ trace w' = trace (failing_world []) ++ new
    /\ calls new = 3
    /\ slept new = 2 * (3 - 1).
Proof.
  apply (@other_errors_retried failing_externals). exact failing_always_other_error.
Defined.

Lemma process_file_output_keeps_input_witness :
  exists w1 content final,
    @process_file answering_externals (py "in/X.txt") (py "out") [rule_foo_bar]
                  (answering_world [(py "in/X.txt", py "hello")])
    = (Ok tt, w1)
    /\ fs (answering_world [(py "in/X.txt", py "hello")]) !! py "in/X.txt"
       = Some (Ok content)
    /\ truthy (strip (job_text (py "in/X.txt") content)) = true
    /\ fs w1 !! @output_path (py "in/X.txt") (py "out")
       = Some (Ok (final ++ separator ++ job_text (py "in/X.txt") content)).
Proof.
  destruct (@process_file_effect answering_externals
              (py "in/X.txt") (py "out") [rule_foo_bar]
              (answering_world [(py "in/X.txt", py "hello")]))
    as (w1 & Hrun & _).
  assert (Hnew : is_Some (fs w1 !! py "out/X_rag.txt")).
  { replace w1 with
      (snd (@process_file answering_externals (py "in/X.txt") (py "out")
              [rule_foo_bar] (answering_world [(py "in/X.txt", py "hello")])))
      by (now rewrite Hrun).
    vm_compute. eauto. }
  destruct (@process_file_output_keeps_input answering_externals
              (py "in/X.txt") (py "out") [rule_foo_bar] _ w1 Hrun)
    as (content & final & H1 & H2 & H3).
  - intros H. rewrite H in Hnew. vm_compute in Hnew.
    destruct Hnew as [x Hx]. discriminate Hx.
  - exists w1, content, final. auto.
Defined.

Lemma process_file_unreadable_input_witness :
  exists e,
    @process_file toy_externals (py "in/Y.txt") (py "out") [rule_foo_bar] world_fresh
    = (Ok tt,
       World (fs world_fresh) (gemini world_fresh)
             (trace world_fresh
              ++ [EvExists (@output_path (py "in/Y.txt") (py "out"));
                  EvLog INFO (MsgStarting (Os.basename (py "in/Y.txt")));
                  EvRead (py "in/Y.txt");
                  EvLog ERROR (MsgFileError (Os.basename (py "in/Y.txt")) e)])).
Proof.
  apply (@process_file_unreadable_input toy_externals).
  - vm_compute. reflexivity.
  - intros content H. vm_compute in H. discriminate H.
Defined.

Lemma eligible_output_path_witness :
  eligible (py "talk.srt") = true
  /\ @output_path (Os.join (py "in") (py "talk.srt")) (py "out")
     = py "out/talk_rag.txt".
Proof.
  split; [reflexivity|].
  rewrite (eligible_output_path (py "in") (py "out") (py "talk.srt") eq_refl eq_refl).
  reflexivity.
Defined.

Lemma process_file_success_witness :
  exists w1 new,
    @process_file answering_externals (py "in/X.txt") (py "out") [rule_foo_bar]
                  (answering_world [(py "in/X.txt", py "hello")])
    = (Ok tt, w1)
    /\ fs w1 = <[@output_path (py "in/X.txt") (py "out")
                 := Ok (@rules_result answering_externals (py "# foo") [rule_foo_bar]
                        ++ separator ++ job_text (py "in/X.txt") (py "hello"))]>
               (fs (answering_world [(py "in/X.txt", py "hello")]))
    /\ gemini w1 = tt
    /\ trace w1 = trace (answering_world [(py "in/X.txt", py "hello")]) ++ new
    /\ calls new = 1 /\ slept new = 0.
Proof.
  apply (@process_file_success answering_externals).
  - vm_compute. reflexivity.
  - vm_compute. reflexivity.
  - reflexivity.
  - reflexivity.
  - reflexivity.
  - reflexivity.
Defined.
